(** * Inventory and stock management: a model of [stock.py]

    The program is a menu over a SQLite file with three tables.  Every
    menu entry opens a connection, issues one or two SQL statements and
    closes the connection again.  The model below follows that shape:

    - the database file is a record of three optional tables (a table
      that was never created is [None]), each a list of rows in rowid
      order together with its AUTOINCREMENT counter;
    - every SQL statement of the source is a constructor of [stmt], with
      its effect given by [exec] (writes) or by a [select_*] function
      (reads);
    - Python code runs in a small monad [M] over a [world]: the file, the
      pending transaction of the open connection, the statements issued,
      the console, and a schedule of storage faults;
    - [try ... except sqlite3.Error ... finally ...] is [try_except] and
      [try_finally].

    Python's [int] is unbounded and SQLite's INTEGER has 64 bits.  An
    [int] outside that range that is bound to a statement makes [sqlite3]
    raise [OverflowError], which is not a [sqlite3.Error]; a quantity
    whose sum leaves the range is computed in doubles and stored as a
    REAL.  Both are modelled.  The ids and counters of a file are taken
    to leave room for the next row.  Prices are IEEE doubles, as Python's
    [float].  The values read at the prompts ([input], [input_int],
    [input_float]) are parameters of the operations. *)

From Stdlib Require Import ZArith List String Bool Lia Permutation Sorted PrimFloat.
Import ListNotations.
Local Open Scope Z_scope.

Set Implicit Arguments.

(** ** Numbers

    What [sqlite3] binds to a parameter and what SQLite keeps in an
    INTEGER column. *)

Definition int64_min : Z := - 2 ^ 63.
Definition int64_max : Z := 2 ^ 63 - 1.

(** The Python [int] fits a 64-bit INTEGER; binding any other raises
    [OverflowError]. *)
Definition fits (z : Z) : bool := (int64_min <=? z) && (z <=? int64_max).

Definition fits_opt (o : option Z) : bool :=
  match o with
  | Some z => fits z
  | None => true
  end.

(** A number in the [quantity] column: an INTEGER, or a REAL whose value
    is the whole number [z].  The column has INTEGER affinity, and the
    only REALs that reach it are sums and differences of whole numbers,
    which are whole. *)
Inductive num : Type :=
| Int (z : Z)
| Real (z : Z).

Definition value (n : num) : Z :=
  match n with
  | Int z => z
  | Real z => z
  end.

(** The double nearest to a whole number, ties to the even mantissa (53
    bits): the conversion of an INTEGER to REAL, and the rounding of a
    sum of doubles. *)
Definition round53 (z : Z) : Z :=
  let a := Z.abs z in
  if a <? 2 ^ 53 then z
  else
    let s := 2 ^ (Z.log2 a - 52) in
    let q := a / s in
    let r := a mod s in
    let q' := if 2 * r <? s then q
              else if s <? 2 * r then q + 1
              else q + q mod 2 in
    Z.sgn z * (q' * s).

(** INTEGER affinity on a REAL about to be stored: it becomes an INTEGER
    when it is a whole number strictly between the smallest and the
    largest INTEGER. *)
Definition integer_affinity (z : Z) : num :=
  if (int64_min <? z) && (z <? int64_max) then Int z else Real z.

(** [quantity + ?] for a bound INTEGER [b]: integer addition when the
    sum fits, otherwise (and when the quantity is a REAL already) the
    addition of doubles.  [quantity - ?] is [sql_add] of the opposite,
    in integers and in doubles alike. *)
Definition sql_add (a : num) (b : Z) : num :=
  match a with
  | Int x =>
      if fits (x + b) then Int (x + b)
      else integer_affinity (round53 (round53 x + round53 b))
  | Real x => integer_affinity (round53 (x + round53 b))
  end.

(** ** Rows and tables *)

(** [trans_type TEXT CHECK(trans_type IN ('IN','OUT'))] *)
Inductive trans_kind : Type := IN | OUT.

(** [Suppliers (supplier_id, name NOT NULL, contact)] *)
Record supplier_row : Type := mkSupplier {
  supplier_id : Z;
  supplier_name : string;
  contact : option string
}.

(** [Products (product_id, name NOT NULL, category, quantity NOT NULL,
    price NOT NULL, supplier_id REFERENCES Suppliers)] *)
Record product_row : Type := mkProduct {
  product_id : Z;
  name : string;
  category : option string;
  quantity : num;
  price : float;
  product_supplier : option Z
}.

(** [Transactions (trans_id, product_id REFERENCES Products, trans_type,
    quantity NOT NULL, date)]; [product_id] is nullable in the schema and
    is bound from the value of the product prompt. *)
Record trans_row : Type := mkTrans {
  trans_id : Z;
  trans_product : option Z;
  trans_type : trans_kind;
  trans_quantity : Z;
  date : string
}.

(** A table: its rows in rowid order and its entry in [sqlite_sequence]. *)
Record table (R : Type) : Type := mkTable {
  rows : list R;
  seq : Z
}.

Record db : Type := mkDb {
  Suppliers : option (table supplier_row);
  Products : option (table product_row);
  Transactions : option (table trans_row)
}.

Definition empty_table (R : Type) : table R := {| rows := []; seq := 0 |}.

(** The file before the first start of the program. *)
Definition empty_db : db :=
  {| Suppliers := None; Products := None; Transactions := None |}.

(** [INTEGER PRIMARY KEY AUTOINCREMENT]: one more than the largest rowid
    the table has ever held. *)
Definition next_rowid (R : Type) (key : R -> Z) (t : table R) : Z :=
  1 + fold_right Z.max (seq t) (map key (rows t)).

Definition insert_row (R : Type) (key : R -> Z) (mk : Z -> R) (t : table R) : table R :=
  let i := next_rowid key t in
  {| rows := rows t ++ [mk i]; seq := i |}.

(** [CREATE TABLE IF NOT EXISTS] *)
Definition create_if_not_exists (R : Type) (t : option (table R)) : option (table R) :=
  match t with
  | Some _ => t
  | None => Some (empty_table R)
  end.

(** [WHERE col = ?] against a bound value that may be NULL: a comparison
    with NULL is never true. *)
Definition sql_eq (col : Z) (param : option Z) : bool :=
  match param with
  | Some v => col =? v
  | None => false
  end.

(** [ORDER BY]: a stable insertion sort on the scan order. *)
Fixpoint insert_by (R : Type) (le : R -> R -> bool) (x : R) (l : list R) : list R :=
  match l with
  | [] => [x]
  | y :: l' => if le x y then x :: l else y :: insert_by le x l'
  end.

Fixpoint order_by (R : Type) (le : R -> R -> bool) (l : list R) : list R :=
  match l with
  | [] => []
  | x :: l' => insert_by le x (order_by le l')
  end.

(** ** SQL statements *)

Inductive exn : Type :=
| OperationalError   (* no such table, storage failure *)
| IntegrityError     (* NOT NULL or FOREIGN KEY constraint failed *)
| OverflowError.     (* Python int too large to convert to SQLite INTEGER *)

(** [OperationalError] and [IntegrityError] are classes of
    [sqlite3.Error]; [OverflowError] is Python's own. *)
Definition sqlite_error (e : exn) : bool :=
  match e with
  | OperationalError | IntegrityError => true
  | OverflowError => false
  end.

Inductive stmt : Type :=
| CreateSuppliers
| CreateProducts
| CreateTransactions
| InsertSupplier (n : string) (c : option string)
| SelectSuppliers
| SelectSupplierExists (sid : Z)
| InsertProduct (n : string) (c : option string) (q : Z) (p : float) (sid : option Z)
| SelectProductsJoin
| SelectProduct (pid : option Z)
| UpdateQuantityAdd (qty : Z) (pid : option Z)
| UpdateQuantitySub (qty : Z) (pid : option Z)
| InsertTransaction (pid : option Z) (k : trans_kind) (qty : Z) (d : string)
| SelectLowStock (threshold : Z)
| SelectTransactionsJoin.

Definition has_supplier (sid : Z) (t : table supplier_row) : bool :=
  existsb (fun r => supplier_id r =? sid) (rows t).

Definition has_product (pid : Z) (t : table product_row) : bool :=
  existsb (fun r => product_id r =? pid) (rows t).

Definition set_quantity (q : num) (r : product_row) : product_row :=
  {| product_id := product_id r; name := name r; category := category r;
     quantity := q; price := price r; product_supplier := product_supplier r |}.

(** [UPDATE Products SET quantity = quantity + delta WHERE product_id = pid] *)
Definition update_quantity (delta : Z) (pid : option Z) (t : table product_row)
  : table product_row :=
  {| rows := map (fun r => if sql_eq (product_id r) pid
                           then set_quantity (sql_add (quantity r) delta) r else r)
                (rows t);
     seq := seq t |}.

(** The effect of a statement on the database it runs against, in the
    order of [sqlite3]: the statement is prepared (a table it names is
    missing: [OperationalError]), its parameters are bound (an [int]
    outside 64 bits: [OverflowError]), and it runs (a constraint fails:
    [IntegrityError]).  With [PRAGMA foreign_keys = ON] an insert into a
    child table needs the parent table and, for a non-NULL key, the
    parent row.  A NaN bound to a column is stored as NULL, which
    [price REAL NOT NULL] refuses. *)
Definition exec (s : stmt) (d : db) : exn + db :=
  match s with
  | CreateSuppliers =>
      inr {| Suppliers := create_if_not_exists (Suppliers d);
             Products := Products d; Transactions := Transactions d |}
  | CreateProducts =>
      inr {| Suppliers := Suppliers d;
             Products := create_if_not_exists (Products d);
             Transactions := Transactions d |}
  | CreateTransactions =>
      inr {| Suppliers := Suppliers d; Products := Products d;
             Transactions := create_if_not_exists (Transactions d) |}
  | InsertSupplier n c =>
      match Suppliers d with
      | None => inl OperationalError
      | Some t =>
          inr {| Suppliers := Some (insert_row supplier_id (fun i => mkSupplier i n c) t);
                 Products := Products d; Transactions := Transactions d |}
      end
  | InsertProduct n c q p sid =>
      match Products d, Suppliers d with
      | Some t, Some ts =>
          if negb (fits q && fits_opt sid) then inl OverflowError
          else if is_nan p then inl IntegrityError
          else if match sid with Some s => has_supplier s ts | None => true end
          then inr {| Suppliers := Suppliers d;
                      Products := Some (insert_row product_id
                                          (fun i => mkProduct i n c (Int q) p sid) t);
                      Transactions := Transactions d |}
          else inl IntegrityError
      | _, _ => inl OperationalError
      end
  | UpdateQuantityAdd qty pid =>
      match Products d with
      | None => inl OperationalError
      | Some t =>
          if negb (fits qty && fits_opt pid) then inl OverflowError
          else inr {| Suppliers := Suppliers d;
                      Products := Some (update_quantity qty pid t);
                      Transactions := Transactions d |}
      end
  | UpdateQuantitySub qty pid =>
      match Products d with
      | None => inl OperationalError
      | Some t =>
          if negb (fits qty && fits_opt pid) then inl OverflowError
          else inr {| Suppliers := Suppliers d;
                      Products := Some (update_quantity (- qty) pid t);
                      Transactions := Transactions d |}
      end
  | InsertTransaction pid k qty dt =>
      match Transactions d, Products d with
      | Some t, Some tp =>
          if negb (fits_opt pid && fits qty) then inl OverflowError
          else if match pid with Some p => has_product p tp | None => true end
          then inr {| Suppliers := Suppliers d; Products := Products d;
                      Transactions := Some (insert_row trans_id
                                              (fun i => mkTrans i pid k qty dt) t) |}
          else inl IntegrityError
      | _, _ => inl OperationalError
      end
  | SelectSuppliers | SelectSupplierExists _ | SelectProductsJoin
  | SelectProduct _ | SelectLowStock _ | SelectTransactionsJoin => inr d
  end.

(** DDL is not wrapped in the implicit transaction of the connection. *)
Definition is_ddl (s : stmt) : bool :=
  match s with
  | CreateSuppliers | CreateProducts | CreateTransactions => true
  | _ => false
  end.

(** *** Queries *)

(** [SELECT supplier_id, name, contact FROM Suppliers ORDER BY supplier_id] *)
Definition select_suppliers (d : db) : exn + list supplier_row :=
  match Suppliers d with
  | None => inl OperationalError
  | Some t => inr (order_by (fun a b => supplier_id a <=? supplier_id b) (rows t))
  end.

(** [SELECT 1 FROM Suppliers WHERE supplier_id=?], [fetchone()] *)
Definition select_supplier_exists (sid : Z) (d : db) : exn + option Z :=
  match Suppliers d with
  | None => inl OperationalError
  | Some t =>
      if negb (fits sid) then inl OverflowError
      else inr (match find (fun r => supplier_id r =? sid) (rows t) with
                | Some _ => Some 1
                | None => None
                end)
  end.

(** [SELECT * FROM Products WHERE product_id=?], [fetchone()] *)
Definition select_product (pid : option Z) (d : db) : exn + option product_row :=
  match Products d with
  | None => inl OperationalError
  | Some t =>
      if negb (fits_opt pid) then inl OverflowError
      else inr (find (fun r => sql_eq (product_id r) pid) (rows t))
  end.

(** [... FROM Products p LEFT JOIN Suppliers s ON p.supplier_id =
    s.supplier_id ORDER BY p.product_id] *)
Definition select_products_join (d : db)
  : exn + list (product_row * option supplier_row) :=
  match Products d, Suppliers d with
  | Some t, Some ts =>
      inr (map (fun p => (p, find (fun s => sql_eq (supplier_id s) (product_supplier p))
                                  (rows ts)))
               (order_by (fun a b => product_id a <=? product_id b) (rows t)))
  | _, _ => inl OperationalError
  end.

(** [SELECT product_id, name, quantity FROM Products WHERE quantity <= ?
    ORDER BY quantity]; INTEGER and REAL compare by their values. *)
Definition select_low_stock (threshold : Z) (d : db) : exn + list (Z * string * num) :=
  match Products d with
  | None => inl OperationalError
  | Some t =>
      if negb (fits threshold) then inl OverflowError
      else inr (map (fun r => (product_id r, name r, quantity r))
                    (order_by (fun a b => value (quantity a) <=? value (quantity b))
                              (filter (fun r => value (quantity r) <=? threshold)
                                      (rows t))))
  end.

(** The BINARY collation of a TEXT column: bytewise comparison. *)
Definition text_compare : string -> string -> comparison := String.compare.

(** [a] comes no later than [b] under
    [ORDER BY t.date DESC, t.trans_id DESC]. *)
Definition trans_before (a b : trans_row) : bool :=
  match text_compare (date a) (date b) with
  | Gt => true
  | Lt => false
  | Eq => trans_id b <=? trans_id a
  end.

(** [SELECT t.trans_id, t.product_id, p.name AS product_name, t.trans_type,
    t.quantity, t.date FROM Transactions t LEFT JOIN Products p ON
    t.product_id = p.product_id ORDER BY t.date DESC, t.trans_id DESC] *)
Definition select_transactions_join (d : db)
  : exn + list (trans_row * option string) :=
  match Transactions d, Products d with
  | Some t, Some tp =>
      inr (map (fun r => (r, option_map name
                               (find (fun p => sql_eq (product_id p) (trans_product r))
                                     (rows tp))))
               (order_by trans_before (rows t)))
  | _, _ => inl OperationalError
  end.

(** ** The world and the monad of operations *)

(** What the storage does at a database call: it works, it raises
    [sqlite3.Error], or the process is killed at that point. *)
Inductive fault : Type := Healthy | Fails | Crash.

(** Console output.  Fixed messages are [Text]; the others carry the
    values that are formatted into the line. *)
Inductive line : Type :=
| Text (s : string)
| DbError (op : string) (e : exn)
| SupplierAdded (n : string)
| SupplierLine (r : supplier_row)
| ProductAdded (n : string)
| ProductLine (r : product_row) (s : option supplier_row)
| StockUpdated (qty : Z) (n : string) (pid : option Z)
| StockDecreased (qty : Z) (n : string) (pid : option Z)
| NotEnoughStock (available : num)
| LowStockLine (r : Z * string * num)
| TransLine (r : trans_row * option string).

Record world : Type := mkWorld {
  file : db;                  (* committed contents of inventory.db *)
  txn : option db;            (* pending transaction of the open connection *)
  faults : list fault;        (* storage behaviour at the calls to come *)
  sql_log : list stmt;        (* statements issued, oldest first *)
  console : list line         (* lines printed, oldest first *)
}.

(** A run on a healthy storage. *)
Definition boot (d : db) : world :=
  {| file := d; txn := None; faults := []; sql_log := []; console := [] |}.

Inductive res (A : Type) : Type :=
| Ret (a : A)
| Raise (e : exn)     (* an exception on its way up *)
| Killed.             (* the process is gone *)

Arguments Raise {A} e.
Arguments Killed {A}.

Definition M (A : Type) : Type := world -> res A * world.

Definition ret (A : Type) (a : A) : M A := fun w => (Ret a, w).

Definition bind (A B : Type) (m : M A) (k : A -> M B) : M B :=
  fun w =>
    match m w with
    | (Ret a, w') => k a w'
    | (Raise e, w') => (Raise e, w')
    | (Killed, w') => (Killed, w')
    end.

Notation "x <- m ;; k" := (bind m (fun x => k))
  (at level 61, m at next level, right associativity).
Notation "m ;; k" := (bind m (fun _ => k))
  (at level 61, right associativity).

(** [try: body except sqlite3.Error as e: handler e]; any other
    exception passes. *)
Definition try_except (A : Type) (body : M A) (handler : exn -> M A) : M A :=
  fun w =>
    match body w with
    | (Raise e, w') => if sqlite_error e then handler e w' else (Raise e, w')
    | other => other
    end.

(** [try: body finally: fin] *)
Definition try_finally (A : Type) (body : M A) (fin : M unit) : M A :=
  fun w =>
    match body w with
    | (Killed, w') => (Killed, w')
    | (r, w') =>
        match fin w' with
        | (Ret _, w'') => (r, w'')
        | (Raise e, w'') => (Raise e, w'')
        | (Killed, w'') => (Killed, w'')
        end
    end.

Definition print (l : line) : M unit :=
  fun w => (Ret tt, {| file := file w; txn := txn w; faults := faults w;
                       sql_log := sql_log w; console := console w ++ [l] |}).

(** The database a statement of the open connection sees. *)
Definition current (w : world) : db :=
  match txn w with
  | Some d => d
  | None => file w
  end.

(** A call into the storage: the next entry of the fault schedule decides
    whether it takes place.  A killed process loses its pending
    transaction; the file keeps what was committed. *)
Definition next_call (w : world) : world :=
  {| file := file w; txn := txn w; faults := tl (faults w);
     sql_log := sql_log w; console := console w |}.

Definition kill (w : world) : world :=
  {| file := file w; txn := None; faults := tl (faults w);
     sql_log := sql_log w; console := console w |}.

Definition db_call (A : Type) (act : M A) : M A :=
  fun w =>
    match faults w with
    | [] | Healthy :: _ => act (next_call w)
    | Fails :: _ => (Raise OperationalError, next_call w)
    | Crash :: _ => (Killed, kill w)
    end.

Definition log_stmt (s : stmt) (w : world) : world :=
  {| file := file w; txn := txn w; faults := faults w;
     sql_log := sql_log w ++ [s]; console := console w |}.

Definition set_txn (t : option db) (w : world) : world :=
  {| file := file w; txn := t; faults := faults w;
     sql_log := sql_log w; console := console w |}.

Definition set_file (d : db) (w : world) : world :=
  {| file := d; txn := txn w; faults := faults w;
     sql_log := sql_log w; console := console w |}.

(** [sqlite3.connect(DB_FILE)] followed by [PRAGMA foreign_keys = ON]. *)
Definition get_connection : M unit := db_call (ret tt).

(** [conn.execute(s)] for a statement that writes.  The statement is
    issued, then the storage decides; a statement that fails, for want
    of a table, by [OverflowError] at the binding of its parameters or
    by a constraint (see [exec]), leaves the database as it was. *)
Definition execute (s : stmt) : M unit :=
  fun w0 =>
    db_call (fun w =>
      match exec s (current w) with
      | inl e => (Raise e, w)
      | inr d =>
          if is_ddl s && match txn w with None => true | Some _ => false end
          then (Ret tt, set_file d w)
          else (Ret tt, set_txn (Some d) w)
      end) (log_stmt s w0).

(** [conn.execute(s).fetchall()] or [.fetchone()] for a statement that
    reads; [q] is the query [s] stands for, with the [OverflowError] of
    a parameter outside 64 bits. *)
Definition query (A : Type) (s : stmt) (q : db -> exn + A) : M A :=
  fun w0 =>
    db_call (fun w =>
      match q (current w) with
      | inl e => (Raise e, w)
      | inr a => (Ret a, w)
      end) (log_stmt s w0).

(** [conn.commit()] *)
Definition commit : M unit :=
  db_call (fun w => (Ret tt, set_txn None (set_file (current w) w))).

(** [conn.close()]: what was not committed is rolled back. *)
Definition close : M unit := fun w => (Ret tt, set_txn None w).

Fixpoint print_all (A : Type) (f : A -> line) (l : list A) : M unit :=
  match l with
  | [] => ret tt
  | x :: l' => print (f x) ;; print_all f l'
  end.

(** ** The clock

    [datetime.now()] as its calendar fields, and
    [strftime("%Y-%m-%d %H:%M:%S")]: every field in decimal, padded with
    zeros to four digits for the year and two for the others. *)

Record datetime : Type := mkDatetime {
  year : Z;
  month : Z;
  day : Z;
  hour : Z;
  minute : Z;
  second : Z
}.

Definition digit (d : Z) : Ascii.ascii := Ascii.ascii_of_N (48 + Z.to_N d).

Definition two_digits (n : Z) : string :=
  String (digit (n / 10)) (String (digit (n mod 10)) EmptyString).

Definition strftime (t : datetime) : string :=
  (two_digits (year t / 100) ++ two_digits (year t mod 100) ++ "-"
   ++ two_digits (month t) ++ "-" ++ two_digits (day t) ++ " "
   ++ two_digits (hour t) ++ ":" ++ two_digits (minute t) ++ ":"
   ++ two_digits (second t))%string.

(** ** The prompts

    [input_int] and [input_float] read lines until one is accepted.  The
    console input is the list of lines still to come; reading past its end
    is [EOFError].  [str.strip], [int] and [float] are Python's own and
    are taken as they are: [int_of] and [float_of] answer [None] where
    Python raises [ValueError].  The warnings are given without the
    pictogram they start with. *)

Inductive answer (A : Type) : Type :=
| Answered (a : A) (rest : list string)   (* the value, and the lines left *)
| EndOfInput.                             (* EOFError *)

Arguments EndOfInput {A}.

Definition invalid_integer : line := Text "Please enter a valid integer.".
Definition invalid_number : line := Text "Please enter a valid number (e.g., 12.50).".

Section Prompts.
Variable strip : string -> string.
Variable int_of : string -> option Z.
Variable float_of : string -> option float.

(** The result of the prompt and the warnings printed on the way. *)
Fixpoint input_int (allow_empty : bool) (lines : list string)
  : answer (option Z) * list line :=
  match lines with
  | [] => (EndOfInput, [])
  | l :: rest =>
      let val := strip l in
      if allow_empty && (val =? "")%string then (Answered None rest, [])
      else match int_of val with
           | Some n => (Answered (Some n) rest, [])
           | None =>
               let (r, out) := input_int allow_empty rest in
               (r, invalid_integer :: out)
           end
  end.

Fixpoint input_float (lines : list string) : answer float * list line :=
  match lines with
  | [] => (EndOfInput, [])
  | l :: rest =>
      match float_of (strip l) with
      | Some x => (Answered x rest, [])
      | None =>
          let (r, out) := input_float rest in
          (r, invalid_number :: out)
      end
  end.
End Prompts.

(** ** The operations of [stock.py]

    Each operation takes the values its prompts return: a line of
    [input(...).strip()] as a string, [input_int] as [option Z] ([None]
    for an empty line where that is allowed), [input_float] as a float,
    and the clock reading as a [datetime]. *)

Definition create_tables : M unit :=
  get_connection ;;
  try_finally
    (try_except
       (execute CreateSuppliers ;;
        execute CreateProducts ;;
        execute CreateTransactions ;;
        commit)
       (fun e => print (DbError "create_tables" e)))
    close.

(** [input(...).strip() or None] *)
Definition or_none (s : string) : option string :=
  if (s =? "")%string then None else Some s.

Definition add_supplier (name_in contact_in : string) : M unit :=
  print (Text "--- Add Supplier ---") ;;
  if (name_in =? "")%string then print (Text "Name cannot be empty.")
  else
    get_connection ;;
    try_finally
      (try_except
         (execute (InsertSupplier name_in (or_none contact_in)) ;;
          commit ;;
          print (SupplierAdded name_in))
         (fun e => print (DbError "adding supplier" e)))
      close.

Definition view_suppliers : M unit :=
  get_connection ;;
  try_finally
    (try_except
       (rws <- query SelectSuppliers select_suppliers ;;
        match rws with
        | [] => print (Text "No suppliers found.")
        | _ => print (Text "Suppliers:") ;; print_all SupplierLine rws
        end)
       (fun e => print (DbError "viewing suppliers" e)))
    close.

Definition supplier_exists (sid : option Z) : M bool :=
  match sid with
  | None => ret false
  | Some s =>
      get_connection ;;
      try_finally
        (row <- query (SelectSupplierExists s) (select_supplier_exists s) ;;
         ret (match row with Some _ => true | None => false end))
        close
  end.

Definition add_product (name_in category_in : string) (quantity_in : option Z)
    (price_in : float) (supplier_in : option Z) : M unit :=
  print (Text "--- Add Product ---") ;;
  if (name_in =? "")%string then print (Text "Product name cannot be empty.")
  else
    match quantity_in with
    | None => print (Text "Quantity must be 0 or greater.")
    | Some q =>
        if q <? 0 then print (Text "Quantity must be 0 or greater.")
        else
          print (Text "Available suppliers (optional):") ;;
          view_suppliers ;;
          missing <- match supplier_in with
                     | None => ret false
                     | Some _ => found <- supplier_exists supplier_in ;; ret (negb found)
                     end ;;
          if missing
          then print (Text "Supplier ID does not exist. Use existing supplier or add a new one.")
          else
            get_connection ;;
            try_finally
              (try_except
                 (execute (InsertProduct name_in (or_none category_in) q price_in
                             supplier_in) ;;
                  commit ;;
                  print (ProductAdded name_in))
                 (fun e => print (DbError "adding product" e)))
              close
    end.

Definition view_products : M unit :=
  get_connection ;;
  try_finally
    (try_except
       (rws <- query SelectProductsJoin select_products_join ;;
        match rws with
        | [] => print (Text "No products found.")
        | _ => print (Text "Products:") ;;
               print_all (fun r => ProductLine (fst r) (snd r)) rws
        end)
       (fun e => print (DbError "viewing products" e)))
    close.

Definition get_product (pid : option Z) : M (option product_row) :=
  get_connection ;;
  try_finally (query (SelectProduct pid) (select_product pid)) close.

Definition stock_in (pid qty_in : option Z) (now : datetime) : M unit :=
  print (Text "--- Stock IN ---") ;;
  view_products ;;
  product <- get_product pid ;;
  match product with
  | None => print (Text "Product not found.")
  | Some p =>
      match qty_in with
      | None => print (Text "Quantity must be a positive integer.")
      | Some qty =>
          if qty <=? 0 then print (Text "Quantity must be a positive integer.")
          else
            get_connection ;;
            try_finally
              (try_except
                 (execute (UpdateQuantityAdd qty pid) ;;
                  execute (InsertTransaction pid IN qty (strftime now)) ;;
                  commit ;;
                  print (StockUpdated qty (name p) pid))
                 (fun e => print (DbError "stock_in" e)))
              close
      end
  end.

Definition stock_out (pid qty_in : option Z) (now : datetime) : M unit :=
  print (Text "--- Stock OUT ---") ;;
  view_products ;;
  product <- get_product pid ;;
  match product with
  | None => print (Text "Product not found.")
  | Some p =>
      match qty_in with
      | None => print (Text "Quantity must be a positive integer.")
      | Some qty =>
          if qty <=? 0 then print (Text "Quantity must be a positive integer.")
          else if value (quantity p) <? qty then print (NotEnoughStock (quantity p))
          else
            get_connection ;;
            try_finally
              (try_except
                 (execute (UpdateQuantitySub qty pid) ;;
                  execute (InsertTransaction pid OUT qty (strftime now)) ;;
                  commit ;;
                  print (StockDecreased qty (name p) pid))
                 (fun e => print (DbError "stock_out" e)))
              close
      end
  end.

Definition low_stock_report (threshold_in : option Z) : M unit :=
  print (Text "--- Low Stock Report ---") ;;
  match threshold_in with
  | None => print (Text "Threshold must be 0 or greater.")
  | Some threshold =>
      if threshold <? 0 then print (Text "Threshold must be 0 or greater.")
      else
        get_connection ;;
        try_finally
          (try_except
             (rws <- query (SelectLowStock threshold) (select_low_stock threshold) ;;
              match rws with
              | [] => print (Text "No products with quantity <= threshold.")
              | _ => print (Text "Low Stock Products:") ;; print_all LowStockLine rws
              end)
             (fun e => print (DbError "low_stock_report" e)))
          close
  end.

Definition transaction_report : M unit :=
  print (Text "--- Transactions Report ---") ;;
  get_connection ;;
  try_finally
    (try_except
       (rws <- query SelectTransactionsJoin select_transactions_join ;;
        match rws with
        | [] => print (Text "No transactions found.")
        | _ => print (Text "Transactions:") ;; print_all TransLine rws
        end)
       (fun e => print (DbError "transaction_report" e)))
    close.

(** One turn of the menu loop: the choice typed, with the answers to the
    prompts of the operation it starts. *)
Inductive action : Type :=
| AddSupplier (name_in contact_in : string)
| ViewSuppliers
| AddProduct (name_in category_in : string) (quantity_in : option Z)
    (price_in : float) (supplier_in : option Z)
| ViewProducts
| StockIn (pid qty_in : option Z) (now : datetime)
| StockOut (pid qty_in : option Z) (now : datetime)
| LowStockReport (threshold_in : option Z)
| TransactionReport
| InvalidChoice.

Definition menu_text_1 : line :=
  Text "1. Add Supplier 2. View Suppliers 3. Add Product 4. View Products".

Definition menu_text_2 : line :=
  Text "5. Stock IN 6. Stock OUT 7. Low Stock Report 8. Transaction Report 9. Exit".

Definition run_action (a : action) : M unit :=
  match a with
  | AddSupplier n c => add_supplier n c
  | ViewSuppliers => view_suppliers
  | AddProduct n c q p s => add_product n c q p s
  | ViewProducts => view_products
  | StockIn pid qty now => stock_in pid qty now
  | StockOut pid qty now => stock_out pid qty now
  | LowStockReport t => low_stock_report t
  | TransactionReport => transaction_report
  | InvalidChoice => print (Text "Invalid choice. Please enter a number from 1 to 9.")
  end.

(** The [while True] loop over the choices typed before choice 9. *)
Fixpoint menu_loop (acts : list action) : M unit :=
  match acts with
  | [] => print menu_text_1 ;; print menu_text_2 ;; print (Text "Goodbye!")
  | a :: rest => print menu_text_1 ;; print menu_text_2 ;; run_action a ;; menu_loop rest
  end.

Definition main_menu (acts : list action) : M unit :=
  create_tables ;;
  print (Text "===== Inventory Management System =====") ;;
  menu_loop acts.

(** The file an operation leaves behind, and what it printed. *)
Definition file_after (A : Type) (m : M A) (w : world) : db := file (snd (m w)).
Definition console_after (A : Type) (m : M A) (w : world) : list line := console (snd (m w)).
Definition log_after (A : Type) (m : M A) (w : world) : list stmt := sql_log (snd (m w)).

(** * Vocabulary of the properties *)

(** ** Rows of a table that may not exist *)

Definition supplier_rows (d : db) : list supplier_row :=
  match Suppliers d with Some t => rows t | None => [] end.

Definition product_rows (d : db) : list product_row :=
  match Products d with Some t => rows t | None => [] end.

Definition trans_rows (d : db) : list trans_row :=
  match Transactions d with Some t => rows t | None => [] end.

(** The three [CREATE TABLE] statements have run. *)
Definition schema_ready (d : db) : Prop :=
  Suppliers d <> None /\ Products d <> None /\ Transactions d <> None.

(** [product_id INTEGER PRIMARY KEY]: no two product rows share an id. *)
Definition pk_unique (d : db) : Prop := NoDup (map product_id (product_rows d)).

(** Every stored quantity is at least zero. *)
Definition quantities_nonneg (d : db) : Prop :=
  Forall (fun r => 0 <= value (quantity r)) (product_rows d).

(** A quantity as SQLite keeps it in a column of INTEGER affinity: an
    INTEGER of 64 bits, or a REAL outside their range (one inside would
    have been turned into an INTEGER, and [2^63 - 1] is no double). *)
Definition stored (n : num) : Prop :=
  match n with
  | Int z => fits z = true
  | Real z => z <= int64_min \/ int64_max < z
  end.

Definition quantities_stored (d : db) : Prop :=
  Forall (fun r => stored (quantity r)) (product_rows d).

(** Every stored quantity is an INTEGER between 0 and [B]. *)
Definition quantities_within (B : Z) (d : db) : Prop :=
  Forall (fun r => exists z, quantity r = Int z /\ 0 <= z <= B) (product_rows d).


(** The largest quantity a run of the menu can bring a product to, from
    quantities of at most [B]: a new product starts at the quantity
    typed, a receipt adds the quantity typed. *)
Fixpoint capacity (acts : list action) (B : Z) : Z :=
  match acts with
  | [] => B
  | AddProduct _ _ (Some q) _ _ :: rest => capacity rest (Z.max B q)
  | StockIn _ (Some q) _ :: rest => capacity rest (B + Z.max 0 q)
  | _ :: rest => capacity rest B
  end.

(** Statements that leave every quantity an INTEGER between 0 and [B]
    when they find them so. *)
Definition keeps_within (B : Z) (s : stmt) : bool :=
  match s with
  | InsertProduct _ _ q _ _ => (0 <=? q) && (q <=? B)
  | UpdateQuantityAdd _ _ | UpdateQuantitySub _ _ => false
  | _ => true
  end.

(** [d] holds every transaction row of [d0], unchanged and in place, and
    possibly more after them. *)
Definition extends (d0 d : db) : Prop :=
  exists new, trans_rows d = trans_rows d0 ++ new.

(** ** Frames: a property of the file and the pending transaction that
    the steps of an operation keep *)

Definition holds (J : db -> option db -> Prop) (w : world) : Prop :=
  J (file w) (txn w).

Definition preserves (J : db -> option db -> Prop) (A : Type) (m : M A) : Prop :=
  forall w, holds J w -> holds J (snd (m w)).

(** Closing the connection, or losing the process, drops the pending
    transaction. *)
Definition rollback_closed (J : db -> option db -> Prop) : Prop :=
  forall f t, J f t -> J f None.

Definition commit_closed (J : db -> option db -> Prop) : Prop :=
  forall f t, J f t -> J (match t with Some d => d | None => f end) None.

Definition stmt_ok (J : db -> option db -> Prop) (s : stmt) : Prop :=
  forall f t d',
    J f t ->
    exec s (match t with Some d => d | None => f end) = inr d' ->
    match is_ddl s, t with
    | true, None => J d' None
    | _, _ => J f (Some d')
    end.

(** A property of the database, seen on the file and on the pending
    transaction. *)
Definition both (I : db -> Prop) (f : db) (t : option db) : Prop :=
  I f /\ forall d, t = Some d -> I d.

(** Nothing written, nothing pending. *)
Definition untouched (d0 : db) (f : db) (t : option db) : Prop :=
  f = d0 /\ t = None.

(** ** Outcomes: what holds of the result and the world an operation
    ends in *)

Definition post (A : Type) (m : M A) (w : world) (Q : res A -> world -> Prop) : Prop :=
  Q (fst (m w)) (snd (m w)).

(** An operation that returns has closed its connection. *)
Definition closes (A : Type) (m : M A) : Prop :=
  forall w, txn w = None ->
    match fst (m w) with
    | Ret _ => txn (snd (m w)) = None
    | _ => True
    end.

(** ** Vocabulary of the individual properties *)

(** Statements that cannot make a stored quantity negative, whatever the
    database they run against.  The subtraction of [stock_out] is not one
    of them: it depends on the check made before it. *)
Definition harmless (s : stmt) : bool :=
  match s with
  | UpdateQuantitySub _ _ => false
  | UpdateQuantityAdd qty _ => 0 <=? qty
  | InsertProduct _ _ q _ _ => 0 <=? q
  | _ => true
  end.

(** The lines that report a completed stock movement. *)
Definition is_success (l : line) : bool :=
  match l with
  | StockUpdated _ _ _ | StockDecreased _ _ _ => true
  | _ => false
  end.

(** The console has grown by lines that report no stock movement. *)
Definition quietly (w w' : world) : Prop :=
  exists l, console w' = console w ++ l /\ existsb is_success l = false.

(** The constraints of the [Products] table the stock ledger relies on. *)
Definition sound (d : db) : Prop :=
  pk_unique d /\ quantities_nonneg d /\ quantities_stored d.

(** The outcome of an operation on the constraints: they hold of the file
    it leaves, and it has closed its connection if it returns. *)
Definition keeps_sound (A : Type) (m : M A) : Prop :=
  forall w, txn w = None -> sound (file w) ->
    post m w (fun r w' => sound (file w') /\
                          match r with Ret _ => txn w' = None | _ => True end).

(** Both writes of a stock movement, the update and then the insert, have
    been applied to [d], giving [d']. *)
Definition applied (u i : stmt) (d d' : db) : Prop :=
  exists d1, exec u d = inr d1 /\ exec i d1 = inr d'.

(** The database calls of a stock movement, in the order of the fault
    schedule: 0-1 [view_products], 2-3 [get_product], 4 the connection of
    the movement, 5 the UPDATE, 6 the INSERT, 7 the commit. *)
Definition movement_unharmed (fl : list fault) : Prop :=
  nth 4 fl Healthy = Healthy /\ nth 5 fl Healthy = Healthy /\
  nth 6 fl Healthy = Healthy /\ nth 7 fl Healthy = Healthy.

(** A file with one supplier, one product of quantity 10 and one
    transaction, used to exercise the theorems below. *)
Definition sample_db : db :=
  {| Suppliers := Some {| rows := [mkSupplier 1 "Acme" None]; seq := 1 |};
     Products := Some {| rows := [mkProduct 1 "bolt" None (Int 10) 12.5%float (Some 1)];
                         seq := 1 |};
     Transactions := Some {| rows := [mkTrans 1 (Some 1) IN 10 "2024-01-01 09:00:00"];
                             seq := 1 |} |}.

(** The product a value typed at the product prompt denotes. *)
Definition lookup_product (pid : option Z) (d : db) : option product_row :=
  find (fun r => sql_eq (product_id r) pid) (product_rows d).







(** The file after both writes of a stock movement by [delta]. *)
Definition moved (d : db) (tp : table product_row) (tt : table trans_row)
    (pid : option Z) (k : trans_kind) (delta qty : Z) (now : string) : db :=
  {| Suppliers := Suppliers d;
     Products := Some (update_quantity delta pid tp);
     Transactions := Some (insert_row trans_id (fun i => mkTrans i pid k qty now) tt) |}.


(** The rows a low-stock report printed. *)
Definition low_stock_lines (c : list line) : list (Z * string * num) :=
  flat_map (fun l => match l with LowStockLine r => [r] | _ => [] end) c.

(** The rows a transaction report printed. *)
Definition transaction_lines (c : list line) : list (trans_row * option string) :=
  flat_map (fun l => match l with TransLine r => [r] | _ => [] end) c.

(** [a] is listed before [b]: a later date, or the same date and an id
    that is not smaller. *)
Definition newer_first (a b : trans_row) : Prop :=
  text_compare (date a) (date b) = Gt \/
  (date a = date b /\ trans_id b <= trans_id a).

(** A reading of the clock: a four-digit year and calendar fields in
    their ranges. *)
Definition valid_datetime (t : datetime) : Prop :=
  1000 <= year t <= 9999 /\ 1 <= month t <= 12 /\ 1 <= day t <= 31 /\
  0 <= hour t <= 23 /\ 0 <= minute t <= 59 /\ 0 <= second t <= 59.

Definition then_compare (c1 c2 : comparison) : comparison :=
  match c1 with
  | Eq => c2
  | _ => c1
  end.

(** The order of two readings of the clock in time. *)
Definition chrono_compare (a b : datetime) : comparison :=
  then_compare (year a ?= year b)
    (then_compare (month a ?= month b)
       (then_compare (day a ?= day b)
          (then_compare (hour a ?= hour b)
             (then_compare (minute a ?= minute b) (second a ?= second b))))).

(** [a] is listed before [b] and, whenever their dates were written by
    [strftime] from readings of the clock, [a] is the later one, or they
    are of the same second and the id of [a] is not smaller. *)
Definition later_first (a b : trans_row) : Prop :=
  forall ta tb,
    valid_datetime ta -> valid_datetime tb ->
    date a = strftime ta -> date b = strftime tb ->
    chrono_compare ta tb = Gt \/
    (chrono_compare ta tb = Eq /\ trans_id b <= trans_id a).

(** Between [w] and [w'] only statements accepted by [P] were issued. *)
Definition issues (P : stmt -> bool) (w w' : world) : Prop :=
  exists l, sql_log w' = sql_log w ++ l /\ forallb P l = true.


Definition is_product_insert (s : stmt) : bool :=
  match s with
  | InsertProduct _ _ _ _ _ => true
  | _ => false
  end.

Definition supplier_missing_text : line :=
  Text "Supplier ID does not exist. Use existing supplier or add a new one.".

Definition not_product_insert (s : stmt) : bool := negb (is_product_insert s).


(** A storage that fails at the INSERT of a stock movement, between the
    two writes. *)
Definition fails_at_insert (d : db) : world :=
  {| file := d; txn := None;
     faults := [Healthy; Healthy; Healthy; Healthy; Healthy; Healthy; Fails];
     sql_log := []; console := [] |}.

(** ** Vocabulary of the prompts *)

(** A line [input_int] accepts: an empty one where that is allowed, or one
    that [int] reads. *)
Definition accepted_int (strip : string -> string) (int_of : string -> option Z)
    (allow_empty : bool) (l : string) : bool :=
  (allow_empty && (strip l =? "")%string)
  || match int_of (strip l) with Some _ => true | None => false end.

(** What [input_int] answers on an accepted line. *)
Definition int_answer (strip : string -> string) (int_of : string -> option Z)
    (allow_empty : bool) (l : string) : option Z :=
  if allow_empty && (strip l =? "")%string then None else int_of (strip l).

(** A line [input_float] accepts. *)
Definition accepted_float (strip : string -> string)
    (float_of : string -> option float) (l : string) : bool :=
  match float_of (strip l) with Some _ => true | None => false end.

(** Sample readings of [strip], [int] and [float], enough for the lines
    used to exercise the prompts. *)
Definition sample_strip (s : string) : string :=
  if (s =? " 7 ")%string then "7"%string else s.

Definition sample_int_of (s : string) : option Z :=
  if (s =? "7")%string then Some 7 else if (s =? "-3")%string then Some (-3) else None.

Definition sample_float_of (s : string) : option float :=
  if (s =? "12.50")%string then Some 12.5%float else None.

(** ** Vocabulary of the invariants of the file *)

(** The statements that write which a turn of the menu can issue, after
    the checks the operation makes on what was typed. *)
Definition writes (a : action) : list stmt :=
  match a with
  | AddSupplier n c =>
      if (n =? "")%string then [] else [InsertSupplier n (or_none c)]
  | AddProduct n c (Some q) p s =>
      if (n =? "")%string then []
      else if q <? 0 then [] else [InsertProduct n (or_none c) q p s]
  | StockIn pid (Some q) now =>
      if q <=? 0 then []
      else [UpdateQuantityAdd q pid; InsertTransaction pid IN q (strftime now)]
  | StockOut pid (Some q) now =>
      if q <=? 0 then []
      else [UpdateQuantitySub q pid; InsertTransaction pid OUT q (strftime now)]
  | _ => []
  end.

(** [FOREIGN KEY ... REFERENCES]: the supplier a product row names and
    the product a transaction row names have their rows. *)
Definition references_resolve (d : db) : Prop :=
  (forall p s, In p (product_rows d) -> product_supplier p = Some s ->
     In s (map supplier_id (supplier_rows d))) /\
  (forall t i, In t (trans_rows d) -> trans_product t = Some i ->
     In i (map product_id (product_rows d))).

(** A product row without its quantity. *)
Definition forget_quantity (r : product_row) : product_row := set_quantity (Int 0) r.

(** [d] holds every supplier row of [d0], unchanged and in place, and
    every product row of [d0], in place and unchanged but for its
    quantity; rows may have been added after them. *)
Definition keeps_rows (d0 d : db) : Prop :=
  (exists new, supplier_rows d = supplier_rows d0 ++ new) /\
  (exists new, map forget_quantity (product_rows d)
               = map forget_quantity (product_rows d0) ++ new).

(** What the checks on the prompts let through: a text that is not
    empty, an optional text that is absent rather than empty. *)
Definition filled (s : string) : bool := negb (s =? "")%string.

Definition absent_or_filled (s : option string) : bool :=
  match s with
  | Some v => filled v
  | None => true
  end.

(** Statements carrying values that passed the checks on the prompts. *)
Definition checked (s : stmt) : bool :=
  match s with
  | InsertSupplier n c => filled n && absent_or_filled c
  | InsertProduct n c q _ _ => filled n && absent_or_filled c
  | InsertTransaction _ _ q _ => 0 <? q
  | _ => true
  end.

(** Every stored row carries values that passed the checks: names are
    not empty, optional texts are NULL rather than empty, prices are
    numbers, and every transaction moved a positive quantity. *)
Definition rows_checked (d : db) : Prop :=
  Forall (fun s => filled (supplier_name s) = true /\
                   absent_or_filled (contact s) = true) (supplier_rows d) /\
  Forall (fun p => filled (name p) = true /\
                   absent_or_filled (category p) = true /\
                   is_nan (price p) = false) (product_rows d) /\
  Forall (fun t => 0 < trans_quantity t) (trans_rows d).

(** ** Vocabulary of the stock ledger *)

(** The quantity on hand of the product with id [i]. *)
Definition on_hand (d : db) (i : Z) : option num :=
  option_map quantity (lookup_product (Some i) d).

(** What a transaction row says of product [i]: the quantity received,
    the quantity issued with a minus sign, nothing for another product. *)
Definition movement_of (i : Z) (t : trans_row) : Z :=
  if sql_eq i (trans_product t)
  then match trans_type t with
       | IN => trans_quantity t
       | OUT => - trans_quantity t
       end
  else 0.

Definition net_movement (i : Z) (l : list trans_row) : Z :=
  fold_right (fun t acc => movement_of i t + acc) 0 l.

(** The transaction rows added between [d0] and [d] account for the
    quantity of every product of [d0]: the product is still there, and
    its quantity, an INTEGER, has moved by the net of the rows added. *)
Definition accounted (d0 d : db) : Prop :=
  exists new,
    trans_rows d = trans_rows d0 ++ new /\
    forall i q0, on_hand d0 i = Some (Int q0) ->
                 on_hand d i = Some (Int (q0 + net_movement i new)).

(** Statements that touch neither a quantity nor the transactions. *)
Definition neutral (s : stmt) : bool :=
  match s with
  | UpdateQuantityAdd _ _ | UpdateQuantitySub _ _ | InsertTransaction _ _ _ _ => false
  | _ => true
  end.

(** The outcome of an operation as a relation between the file it finds
    and the file it leaves; it has closed its connection if it returns. *)
Definition relates (R : db -> db -> Prop) (A : Type) (m : M A) : Prop :=
  forall w, txn w = None ->
    post m w (fun r w' => R (file w) (file w') /\
                          match r with Ret _ => txn w' = None | _ => True end).

(** ** Vocabulary of the errors *)

(** The operation ended in a [sqlite3.Error] that nothing caught. *)
Definition raised (A : Type) (m : M A) (w : world) : Prop :=
  exists e, sqlite_error e = true /\ fst (m w) = Raise e.

(** The storage refuses the next database call. *)
Definition refused (w : world) : Prop := hd Healthy (faults w) = Fails.

(** The product lookup of a stock movement goes wrong: the storage fails
    at its query (database call 3, after the two calls of
    [view_products] and the connection of [get_product]), or the storage
    works and the [Products] table is missing. *)
Definition lookup_fails (w : world) : Prop :=
  (exists rest, faults w = Healthy :: Healthy :: Healthy :: Fails :: rest) \/
  (faults w = [] /\ Products (file w) = None).

(** A storage that fails at the query of [get_product]. *)
Definition fails_at_lookup (d : db) : world :=
  {| file := d; txn := None;
     faults := [Healthy; Healthy; Healthy; Fails];
     sql_log := []; console := [] |}.

(** ** Vocabulary of the outcomes on a storage that works *)




(** The supplier rows a listing printed. *)
Definition supplier_lines (c : list line) : list supplier_row :=
  flat_map (fun l => match l with SupplierLine r => [r] | _ => [] end) c.

(** The product rows a listing printed, each with the supplier row shown
    beside it. *)
Definition product_lines (c : list line) : list (product_row * option supplier_row) :=
  flat_map (fun l => match l with ProductLine r s => [(r, s)] | _ => [] end) c.

(** The supplier row the listing shows beside a product: the one the
    product names, if it names one. *)
Definition supplier_of (d : db) (p : product_row) : option supplier_row :=
  find (fun s => sql_eq (supplier_id s) (product_supplier p)) (supplier_rows d).

(** The [Supplier] column of a product line: the name and the id of the
    supplier row beside the product, or [-] (here [None]) when there is
    none or its name is empty. *)
Definition supplier_column (s : option supplier_row) : option (string * Z) :=
  match s with
  | Some r => if (supplier_name r =? "")%string then None
              else Some (supplier_name r, supplier_id r)
  | None => None
  end.

(** [INTEGER PRIMARY KEY]: within each table no two rows share an id. *)
Definition ids_unique (d : db) : Prop :=
  NoDup (map supplier_id (supplier_rows d)) /\
  NoDup (map product_id (product_rows d)) /\
  NoDup (map trans_id (trans_rows d)).

(** The storage works at the connection of [create_tables] and at its
    three [CREATE TABLE] statements. *)
Definition creation_unharmed (fl : list fault) : Prop :=
  forall i, (i < 4)%nat -> nth i fl Healthy = Healthy.

(** ** Vocabulary of the runs on a storage that works *)

(** On a storage that works the operation is not cut short, and the
    storage still works after it. *)
Definition steady (A : Type) (m : M A) : Prop :=
  forall w, faults w = [] -> fst (m w) <> Killed /\ faults (snd (m w)) = [].



(** The integers bound to the statement are within 64 bits. *)
Definition in_range (s : stmt) : bool :=
  match s with
  | SelectSupplierExists sid => fits sid
  | InsertProduct _ _ q _ sid => fits q && fits_opt sid
  | SelectProduct pid => fits_opt pid
  | UpdateQuantityAdd qty pid | UpdateQuantitySub qty pid => fits qty && fits_opt pid
  | InsertTransaction pid _ qty _ => fits_opt pid && fits qty
  | SelectLowStock threshold => fits threshold
  | _ => true
  end.

(** Every integer typed at a prompt of the choice is within 64 bits. *)
Definition typed_in_range (a : action) : bool :=
  match a with
  | AddProduct _ _ q _ s => fits_opt q && fits_opt s
  | StockIn pid q _ | StockOut pid q _ => fits_opt pid && fits_opt q
  | LowStockReport t => fits_opt t
  | _ => true
  end.

(** The operation ends in no exception other than a [sqlite3.Error]. *)
Definition tame (A : Type) (m : M A) : Prop :=
  forall w e, fst (m w) = Raise e -> sqlite_error e = true.

(** * Reasoning about operations *)

Section Frames.
Variable J : db -> option db -> Prop.

Lemma preserves_ret (A : Type) (a : A) : preserves J (ret a).
Proof. intros w H. exact H. Qed.

Lemma preserves_bind (A B : Type) (m : M A) (k : A -> M B) :
  preserves J m -> (forall a, preserves J (k a)) -> preserves J (bind m k).
Proof.
  intros Hm Hk w H. unfold bind. specialize (Hm w H).
  destruct (m w) as [[a | e |] w1]; simpl in *; auto.
  apply Hk; exact Hm.
Qed.

Lemma preserves_try_except (A : Type) (body : M A) (handler : exn -> M A) :
  preserves J body -> (forall e, preserves J (handler e)) ->
  preserves J (try_except body handler).
Proof.
  intros Hb Hh w H. unfold try_except. specialize (Hb w H).
  destruct (body w) as [[a | e |] w1]; simpl in *; auto.
  destruct (sqlite_error e); [apply Hh |]; exact Hb.
Qed.

Lemma preserves_try_finally (A : Type) (body : M A) (fin : M unit) :
  preserves J body -> preserves J fin -> preserves J (try_finally body fin).
Proof.
  intros Hb Hf w H. unfold try_finally. specialize (Hb w H).
  destruct (body w) as [[a | e |] w1]; simpl in *; auto;
    specialize (Hf w1 Hb); destruct (fin w1) as [[[] | e' |] w2]; simpl in *; auto.
Qed.

Lemma preserves_print (l : line) : preserves J (print l).
Proof. intros w H. exact H. Qed.

Lemma preserves_print_all (A : Type) (f : A -> line) (l : list A) :
  preserves J (print_all f l).
Proof.
  induction l as [| x l IH]; simpl.
  - apply preserves_ret.
  - apply preserves_bind; [apply preserves_print | intros _; exact IH].
Qed.

Hypothesis Hrb : rollback_closed J.

Lemma preserves_db_call (A : Type) (act : M A) :
  preserves J act -> preserves J (db_call act).
Proof.
  intros Ha w H. unfold db_call.
  destruct (faults w) as [| [] fl]; simpl; try (apply Ha; exact H).
  - exact H.
  - eapply Hrb; exact H.
Qed.

Lemma preserves_get_connection : preserves J get_connection.
Proof. apply preserves_db_call, preserves_ret. Qed.

Lemma preserves_close : preserves J close.
Proof. intros w H. eapply Hrb; exact H. Qed.

Lemma preserves_query (A : Type) (s : stmt) (q : db -> exn + A) :
  preserves J (query s q).
Proof.
  intros w0 H0. unfold query. apply preserves_db_call; [| exact H0].
  intros w H. destruct (q (current w)); exact H.
Qed.

Lemma preserves_commit : commit_closed J -> preserves J commit.
Proof.
  intros Hc. apply preserves_db_call.
  intros w H. exact (Hc _ _ H).
Qed.

Lemma preserves_execute (s : stmt) : stmt_ok J s -> preserves J (execute s).
Proof.
  intros Hs w0 H0. unfold execute. apply preserves_db_call; [| exact H0].
  intros w H. unfold holds in *. unfold current.
  specialize (Hs (file w) (txn w)).
  destruct (exec s match txn w with Some d => d | None => file w end) as [e | d'];
    simpl; [exact H |].
  specialize (Hs d' H eq_refl).
  destruct (is_ddl s), (txn w) eqn:Et; simpl; try rewrite Et; exact Hs.
Qed.
End Frames.

Ltac guards :=
  repeat match goal with
         | H : (_ <? _) = false |- _ => apply Z.ltb_ge in H
         | H : (_ <? _) = true |- _ => apply Z.ltb_lt in H
         | H : (_ <=? _) = false |- _ => apply Z.leb_gt in H
         | H : (_ <=? _) = true |- _ => apply Z.leb_le in H
         end.

(** Walks through the body of an operation, one construct at a time. *)
Ltac frame :=
  repeat first
    [ assumption
    | apply preserves_ret
    | apply preserves_print
    | apply preserves_print_all
    | apply preserves_get_connection
    | apply preserves_close
    | apply preserves_query
    | apply preserves_commit
    | apply preserves_execute
    | apply preserves_try_finally
    | apply preserves_try_except; [| intros ?]
    | apply preserves_bind; [| intros ?]
    | match goal with
      | |- preserves _ (match ?x with _ => _ end) => destruct x eqn:?
      end
    | match goal with
      | H : forall _, _ -> stmt_ok _ _ |- stmt_ok _ _ =>
          apply H; simpl; solve [reflexivity | guards; apply Z.leb_le; lia]
      end ].

Section OperationFrames.
Variable J : db -> option db -> Prop.
Hypothesis Hrb : rollback_closed J.

Lemma view_suppliers_preserves : preserves J view_suppliers.
Proof. unfold view_suppliers. frame. Qed.

Lemma view_products_preserves : preserves J view_products.
Proof. unfold view_products. frame. Qed.

Lemma supplier_exists_preserves sid : preserves J (supplier_exists sid).
Proof. unfold supplier_exists. frame. Qed.

Lemma get_product_preserves pid : preserves J (get_product pid).
Proof. unfold get_product. frame. Qed.

Lemma low_stock_report_preserves t : preserves J (low_stock_report t).
Proof. unfold low_stock_report. frame. Qed.

Lemma transaction_report_preserves : preserves J transaction_report.
Proof. unfold transaction_report. frame. Qed.

Hypothesis Hc : commit_closed J.
Hypothesis Hs : forall s, harmless s = true -> stmt_ok J s.

Lemma create_tables_preserves : preserves J create_tables.
Proof. unfold create_tables. frame. Qed.

Lemma add_supplier_preserves n c : preserves J (add_supplier n c).
Proof. unfold add_supplier. frame. Qed.

Lemma add_product_preserves n c q p sid : preserves J (add_product n c q p sid).
Proof.
  unfold add_product. frame;
    try apply view_suppliers_preserves; try apply supplier_exists_preserves; frame.
Qed.

Lemma stock_in_preserves pid q now : preserves J (stock_in pid q now).
Proof.
  unfold stock_in. frame;
    try apply view_products_preserves; try apply get_product_preserves; frame.
Qed.

Lemma stock_out_preserves pid q now :
  (forall s, stmt_ok J s) -> preserves J (stock_out pid q now).
Proof.
  intros Hall. unfold stock_out. frame;
    try apply view_products_preserves; try apply get_product_preserves; frame.
  apply Hall.
Qed.
End OperationFrames.

Section MenuFrames.
Variable J : db -> option db -> Prop.
Hypothesis Hrb : rollback_closed J.
Hypothesis Hc : commit_closed J.
Hypothesis Hs : forall s, stmt_ok J s.

Lemma run_action_preserves a : preserves J (run_action a).
Proof.
  destruct a; simpl.
  - apply add_supplier_preserves; auto.
  - apply view_suppliers_preserves; auto.
  - apply add_product_preserves; auto.
  - apply view_products_preserves; auto.
  - apply stock_in_preserves; auto.
  - apply stock_out_preserves; auto.
  - apply low_stock_report_preserves; auto.
  - apply transaction_report_preserves; auto.
  - apply preserves_print.
Qed.

Lemma menu_loop_preserves acts : preserves J (menu_loop acts).
Proof.
  induction acts as [| a acts IH]; simpl.
  - frame.
  - apply preserves_bind; [apply preserves_print | intros _].
    apply preserves_bind; [apply preserves_print | intros _].
    apply preserves_bind; [apply run_action_preserves | intros _; exact IH].
Qed.

Lemma main_menu_preserves acts : preserves J (main_menu acts).
Proof.
  unfold main_menu.
  apply preserves_bind; [apply create_tables_preserves; auto | intros _].
  apply preserves_bind; [apply preserves_print | intros _].
  apply menu_loop_preserves.
Qed.
End MenuFrames.

(** ** Properties of the database kept by every statement *)

Lemma both_rollback_closed (I : db -> Prop) : rollback_closed (both I).
Proof. intros f t [Hf _]. split; [exact Hf | discriminate]. Qed.

Lemma both_commit_closed (I : db -> Prop) : commit_closed (both I).
Proof.
  intros f t [Hf Ht]. split; [| discriminate].
  destruct t as [d |]; [apply Ht; reflexivity | exact Hf].
Qed.

Lemma both_stmt_ok (I : db -> Prop) (s : stmt) :
  (forall d d', I d -> exec s d = inr d' -> I d') -> stmt_ok (both I) s.
Proof.
  intros HI f t d' [Hf Ht] He.
  assert (Hd' : I d').
  { destruct t as [d |]; [apply (HI d) | apply (HI f)]; auto. }
  destruct (is_ddl s), t; split; auto; try discriminate;
    intros d0 E; inversion E; subst; auto.
Qed.

Lemma untouched_rollback_closed (d0 : db) : rollback_closed (untouched d0).
Proof. intros f t [Hf _]. split; [exact Hf | reflexivity]. Qed.

Lemma extends_refl (d : db) : extends d d.
Proof. exists []. symmetry. apply app_nil_r. Qed.

Lemma extends_trans (d0 d1 d2 : db) : extends d0 d1 -> extends d1 d2 -> extends d0 d2.
Proof.
  intros [n1 H1] [n2 H2]. exists (n1 ++ n2).
  rewrite H2, H1. symmetry. apply app_assoc.
Qed.

(** No statement of the program touches a transaction row that is there:
    the only one that writes to [Transactions] adds a row at the end. *)
Lemma exec_extends (s : stmt) (d d' : db) : exec s d = inr d' -> extends d d'.
Proof.
  unfold extends, trans_rows. intros H.
  destruct s; simpl in H;
    repeat match type of H with
           | context [match ?x with _ => _ end] => destruct x eqn:?
           end;
    inversion H; subst; clear H; simpl;
    solve [ exists []; rewrite app_nil_r; reflexivity
          | eexists; reflexivity
          | exists []; destruct (Transactions d); simpl;
            rewrite ?app_nil_r; reflexivity ].
Qed.

(** ** Outcomes of the monad's constructs *)

Section Outcomes.
Variables A B : Type.

Lemma post_mono (m : M A) (w : world) (Q Q' : res A -> world -> Prop) :
  post m w Q -> (forall r w', Q r w' -> Q' r w') -> post m w Q'.
Proof. unfold post. auto. Qed.

Lemma post_ret (a : A) (w : world) (Q : res A -> world -> Prop) :
  Q (Ret a) w -> post (ret a) w Q.
Proof. exact (fun H => H). Qed.

Lemma post_bind (m : M A) (k : A -> M B) (w : world) (Q : res B -> world -> Prop) :
  post m w (fun r w1 =>
              match r with
              | Ret a => post (k a) w1 Q
              | Raise e => Q (Raise e) w1
              | Killed => Q Killed w1
              end) ->
  post (bind m k) w Q.
Proof. unfold post, bind. destruct (m w) as [[a | e |] w1]; simpl; auto. Qed.

Lemma post_try_except (body : M A) (handler : exn -> M A) (w : world)
    (Q : res A -> world -> Prop) :
  post body w (fun r w1 =>
                 match r with
                 | Raise e => if sqlite_error e then post (handler e) w1 Q
                              else Q (Raise e) w1
                 | _ => Q r w1
                 end) ->
  post (try_except body handler) w Q.
Proof.
  unfold post, try_except. destruct (body w) as [[a | e |] w1]; simpl; auto.
  destruct (sqlite_error e); auto.
Qed.

Lemma post_try_finally (body : M A) (fin : M unit) (w : world)
    (Q : res A -> world -> Prop) :
  post body w (fun r w1 =>
                 match r with
                 | Killed => Q Killed w1
                 | _ => post fin w1 (fun r2 w2 =>
                                       match r2 with
                                       | Ret _ => Q r w2
                                       | Raise e => Q (Raise e) w2
                                       | Killed => Q Killed w2
                                       end)
                 end) ->
  post (try_finally body fin) w Q.
Proof.
  unfold post, try_finally.
  destruct (body w) as [[a | e |] w1]; simpl; auto;
    destruct (fin w1) as [[[] | e' |] w2]; simpl; auto.
Qed.

(** The three ways a database call can go, each with what it says of the
    fault schedule. *)
Lemma post_db_call (act : M A) (w : world) (Q : res A -> world -> Prop) :
  (hd Healthy (faults w) = Healthy -> post act (next_call w) Q) ->
  (hd Healthy (faults w) = Fails -> Q (Raise OperationalError) (next_call w)) ->
  (hd Healthy (faults w) = Crash -> Q Killed (kill w)) ->
  post (db_call act) w Q.
Proof.
  unfold post, db_call. intros Ha Hf Hk.
  destruct (faults w) as [| [] fl]; simpl in *; auto.
Qed.

Lemma post_query (s : stmt) (q : db -> exn + A) (w : world)
    (Q : res A -> world -> Prop) :
  (hd Healthy (faults w) = Healthy ->
   match q (current w) with
   | inl e => Q (Raise e) (next_call (log_stmt s w))
   | inr a => Q (Ret a) (next_call (log_stmt s w))
   end) ->
  (hd Healthy (faults w) = Fails ->
   Q (Raise OperationalError) (next_call (log_stmt s w))) ->
  (hd Healthy (faults w) = Crash -> Q Killed (kill (log_stmt s w))) ->
  post (query s q) w Q.
Proof.
  intros Hq Hf Hk. unfold query.
  match goal with
  | |- post (fun w0 => db_call ?act (log_stmt s w0)) w Q =>
      change (post (db_call act) (log_stmt s w) Q)
  end.
  apply post_db_call; auto.
  intros Hh. specialize (Hq Hh).
  unfold post. change (current (next_call (log_stmt s w))) with (current w).
  destruct (q (current w)); exact Hq.
Qed.

Lemma post_preserves (J : db -> option db -> Prop) (m : M A) (w : world) :
  preserves J m -> holds J w -> post m w (fun _ w' => holds J w').
Proof. intros Hm Hw. exact (Hm w Hw). Qed.
End Outcomes.

Lemma post_print (l : line) (w : world) (Q : res unit -> world -> Prop) :
  Q (Ret tt) {| file := file w; txn := txn w; faults := faults w;
                sql_log := sql_log w; console := console w ++ [l] |} ->
  post (print l) w Q.
Proof. exact (fun H => H). Qed.

Lemma post_get_connection (w : world) (Q : res unit -> world -> Prop) :
  (hd Healthy (faults w) = Healthy -> Q (Ret tt) (next_call w)) ->
  (hd Healthy (faults w) = Fails -> Q (Raise OperationalError) (next_call w)) ->
  (hd Healthy (faults w) = Crash -> Q Killed (kill w)) ->
  post get_connection w Q.
Proof. intros. apply post_db_call; auto. Qed.

Lemma post_close (w : world) (Q : res unit -> world -> Prop) :
  Q (Ret tt) (set_txn None w) -> post close w Q.
Proof. exact (fun H => H). Qed.

Lemma post_commit (w : world) (Q : res unit -> world -> Prop) :
  (hd Healthy (faults w) = Healthy ->
   Q (Ret tt) (set_txn None (set_file (current w) (next_call w)))) ->
  (hd Healthy (faults w) = Fails -> Q (Raise OperationalError) (next_call w)) ->
  (hd Healthy (faults w) = Crash -> Q Killed (kill w)) ->
  post commit w Q.
Proof. intros. apply post_db_call; auto. Qed.

(** A statement that writes and is not DDL, as issued by the stock and
    insert operations. *)
Lemma post_execute (s : stmt) (w : world) (Q : res unit -> world -> Prop) :
  is_ddl s = false ->
  (hd Healthy (faults w) = Healthy ->
   match exec s (current w) with
   | inl e => Q (Raise e) (next_call (log_stmt s w))
   | inr d => Q (Ret tt) (set_txn (Some d) (next_call (log_stmt s w)))
   end) ->
  (hd Healthy (faults w) = Fails ->
   Q (Raise OperationalError) (next_call (log_stmt s w))) ->
  (hd Healthy (faults w) = Crash -> Q Killed (kill (log_stmt s w))) ->
  post (execute s) w Q.
Proof.
  intros Hd He Hf Hk. unfold execute.
  match goal with
  | |- post (fun w0 => db_call ?act (log_stmt s w0)) w Q =>
      change (post (db_call act) (log_stmt s w) Q)
  end.
  apply post_db_call; auto.
  intros Hh. specialize (He Hh).
  unfold post. change (current (next_call (log_stmt s w))) with (current w).
  rewrite Hd. simpl. destruct (exec s (current w)); exact He.
Qed.

(** A [CREATE TABLE] outside a transaction takes effect at once. *)
Lemma post_execute_ddl (s : stmt) (w : world) (Q : res unit -> world -> Prop) :
  is_ddl s = true ->
  txn w = None ->
  (hd Healthy (faults w) = Healthy ->
   match exec s (file w) with
   | inl e => Q (Raise e) (next_call (log_stmt s w))
   | inr d => Q (Ret tt) (set_file d (next_call (log_stmt s w)))
   end) ->
  (hd Healthy (faults w) = Fails ->
   Q (Raise OperationalError) (next_call (log_stmt s w))) ->
  (hd Healthy (faults w) = Crash -> Q Killed (kill (log_stmt s w))) ->
  post (execute s) w Q.
Proof.
  intros Hd Ht He Hf Hk. unfold execute.
  match goal with
  | |- post (fun w0 => db_call ?act (log_stmt s w0)) w Q =>
      change (post (db_call act) (log_stmt s w) Q)
  end.
  apply post_db_call; auto.
  intros Hh. specialize (He Hh).
  unfold post, current. simpl. rewrite Hd, Ht. simpl.
  destruct (exec s (file w)); exact He.
Qed.

Lemma post_print_all (A : Type) (f : A -> line) (l : list A) (w : world)
    (Q : res unit -> world -> Prop) :
  Q (Ret tt) {| file := file w; txn := txn w; faults := faults w;
                sql_log := sql_log w; console := console w ++ map f l |} ->
  post (print_all f l) w Q.
Proof.
  revert w. induction l as [| x l IH]; intros w H; simpl.
  - apply post_ret. simpl in H. rewrite app_nil_r in H. destruct w; exact H.
  - apply post_bind, post_print. apply IH. simpl.
    rewrite <- app_assoc. exact H.
Qed.

(** The queries without integer parameters fail only for want of a
    table. *)
Lemma select_suppliers_error (d : db) (e : exn) :
  select_suppliers d = inl e -> e = OperationalError.
Proof. unfold select_suppliers. destruct (Suppliers d); congruence. Qed.

Lemma select_products_join_error (d : db) (e : exn) :
  select_products_join d = inl e -> e = OperationalError.
Proof.
  unfold select_products_join. destruct (Products d), (Suppliers d); congruence.
Qed.

Lemma select_transactions_join_error (d : db) (e : exn) :
  select_transactions_join d = inl e -> e = OperationalError.
Proof.
  unfold select_transactions_join. destruct (Transactions d), (Products d); congruence.
Qed.

(** Names the exception of a query that has failed. *)
Ltac known_error :=
  match goal with
  | E : select_suppliers _ = inl ?e |- _ =>
      is_var e; apply select_suppliers_error in E; subst e
  | E : select_products_join _ = inl ?e |- _ =>
      is_var e; apply select_products_join_error in E; subst e
  | E : select_transactions_join _ = inl ?e |- _ =>
      is_var e; apply select_transactions_join_error in E; subst e
  end.

(** One step of symbolic execution of an operation; [k] receives what a
    database call says of the fault schedule. *)
Ltac step_with k :=
  lazymatch goal with
  | |- (if sqlite_error _ then _ else _) => idtac
  | |- post (bind _ _) _ _ => apply post_bind
  | |- post (try_finally _ _) _ _ => apply post_try_finally
  | |- post (try_except _ _) _ _ => apply post_try_except
  | |- post (print _) _ _ => apply post_print
  | |- post (print_all _ _) _ _ => apply post_print_all
  | |- post (ret _) _ _ => apply post_ret
  | |- post close _ _ => apply post_close
  | |- post get_connection _ _ => apply post_get_connection; k
  | |- post commit _ _ => apply post_commit; k
  | |- post (query _ _) _ _ => apply post_query; k
  | |- post (execute _) _ _ =>
      first [ apply post_execute; [reflexivity | k | k | k]
            | apply post_execute_ddl; [reflexivity | reflexivity | k | k | k] ]
  end;
  cbv beta iota;
  cbn [file txn faults sql_log console next_call kill log_stmt set_txn set_file
       current tl hd sqlite_error] in *;
  try match goal with
      | |- context [sqlite_error ?e] =>
          is_var e; first [known_error | destruct e]; cbn [sqlite_error]
      end.

Ltac step := step_with ltac:(intros _).
Ltac fstep := step_with ltac:(intros ?).

Lemma quietly_refl (w w' : world) : console w' = console w -> quietly w w'.
Proof. intros H. exists []. rewrite app_nil_r. auto. Qed.

Lemma quietly_one (w w' : world) (l : line) :
  console w' = console w ++ [l] -> is_success l = false -> quietly w w'.
Proof. intros H Hl. exists [l]. simpl. rewrite Hl. auto. Qed.

Lemma quiet_map (A : Type) (f : A -> line) (l : list A) :
  (forall x, is_success (f x) = false) -> existsb is_success (map f l) = false.
Proof.
  intros Hf. induction l as [| x l IH]; simpl; [reflexivity |].
  rewrite Hf. exact IH.
Qed.

(** [get_product] writes nothing, makes two database calls, and returns
    what the query finds in the file; it ends otherwise only when the
    storage misbehaves or the table is missing. *)
Lemma get_product_post (pid : option Z) (w : world) :
  txn w = None ->
  post (get_product pid) w
       (fun r w' => file w' = file w /\ txn w' = None /\ console w' = console w /\
                    match r with
                    | Ret p => select_product pid (file w) = inr p /\
                               faults w' = tl (tl (faults w))
                    | Raise e => faults w <> [] \/ select_product pid (file w) = inl e
                    | Killed => faults w <> []
                    end).
Proof.
  intros Ht. destruct w as [f t fl lg c]; simpl in *; subst t.
  unfold get_product.
  repeat fstep; try solve [intuition congruence | destruct fl; simpl in *; intuition congruence].
  destruct (select_product pid f) eqn:E; repeat step; auto.
Qed.

Lemma view_products_post (w : world) :
  txn w = None ->
  post view_products w
       (fun r w' => file w' = file w /\ txn w' = None /\ quietly w w' /\
                    match r with
                    | Ret _ => faults w' = tl (tl (faults w))
                    | _ => faults w <> []
                    end).
Proof.
  intros Ht. destruct w as [f t fl lg c]; simpl in *; subst t.
  unfold view_products.
  repeat fstep;
    try solve [ repeat split;
                first [ apply quietly_refl; reflexivity
                      | eapply quietly_one; [reflexivity | reflexivity]
                      | destruct fl; simpl in *; congruence
                      | reflexivity ] ].
  destruct (select_products_join f) as [e | [| r rws]] eqn:E; repeat step;
    try solve [ repeat split;
                first [ eapply quietly_one; [reflexivity | reflexivity]
                      | reflexivity ] ].
  repeat split.
  exists (Text "Products:" :: ProductLine (fst r) (snd r)
            :: map (fun x => ProductLine (fst x) (snd x)) rws).
  split.
  - simpl. rewrite <- !app_assoc. reflexivity.
  - simpl. apply quiet_map. reflexivity.
Qed.

(** ** Operations that return have closed their connection *)

Lemma closes_ret (A : Type) (a : A) : closes (ret a).
Proof. intros w H. exact H. Qed.

Lemma closes_print (l : line) : closes (print l).
Proof. intros w H. exact H. Qed.

Lemma closes_bind (A B : Type) (m : M A) (k : A -> M B) :
  closes m -> (forall a, closes (k a)) -> closes (bind m k).
Proof.
  intros Hm Hk w H. unfold bind. specialize (Hm w H).
  destruct (m w) as [[a | e |] w1]; simpl in *; auto.
  apply Hk; exact Hm.
Qed.

(** [conn = get_connection()] followed by [try: ... finally: conn.close()] *)
Lemma closes_scoped (A : Type) (body : M A) :
  closes (get_connection ;; try_finally body close).
Proof.
  intros w _. unfold bind, get_connection, db_call, try_finally, close, ret.
  destruct (faults w) as [| [] fl]; simpl; auto;
    match goal with
    | |- context [body ?x] => destruct (body x) as [[a | e |] w1]; simpl; auto
    end.
Qed.

Ltac closing :=
  repeat first
    [ apply closes_ret
    | apply closes_print
    | apply closes_scoped
    | apply closes_bind; [| intros ?]
    | match goal with
      | |- closes (match ?x with _ => _ end) => destruct x
      end ].

Lemma create_tables_closes : closes create_tables.
Proof. unfold create_tables. closing. Qed.

Lemma run_action_closes (a : action) : closes (run_action a).
Proof.
  destruct a; simpl;
    unfold add_supplier, view_suppliers, add_product, view_products, stock_in,
      stock_out, low_stock_report, transaction_report, get_product, supplier_exists,
      view_suppliers;
    closing.
Qed.

(** ** Doubles that hold whole numbers *)

Lemma fits_range (z : Z) : fits z = true <-> - 2 ^ 63 <= z <= 2 ^ 63 - 1.
Proof.
  unfold fits, int64_min, int64_max. rewrite andb_true_iff, !Z.leb_le. tauto.
Qed.

Lemma value_integer_affinity (z : Z) : value (integer_affinity z) = z.
Proof. unfold integer_affinity. destruct (_ && _); reflexivity. Qed.

(** A whole number of 54 bits or more is rounded to a mantissa of 53
    bits times a power of two. *)
Lemma round53_shape (z : Z) :
  2 ^ 53 <= Z.abs z ->
  exists q e,
    e = Z.log2 (Z.abs z) - 52 /\ 1 <= e /\ 2 ^ 52 <= q <= 2 ^ 53 /\
    round53 z = Z.sgn z * (q * 2 ^ e).
Proof.
  intros Ha. unfold round53.
  destruct (Z.abs z <? 2 ^ 53) eqn:E; [apply Z.ltb_lt in E; lia | clear E].
  set (a := Z.abs z) in *.
  assert (Hpos : 0 < a) by (assert (0 < 2 ^ 53) by (apply Z.pow_pos_nonneg; lia); lia).
  destruct (Z.log2_spec a Hpos) as [Hlo Hhi].
  assert (Hn : 53 <= Z.log2 a).
  { rewrite <- (Z.log2_pow2 53) by lia. apply Z.log2_le_mono. exact Ha. }
  set (e := Z.log2 a - 52) in *.
  assert (He : 1 <= e) by (unfold e; lia).
  assert (Hs : 0 < 2 ^ e) by (apply Z.pow_pos_nonneg; lia).
  assert (Hlo' : 2 ^ e * 2 ^ 52 <= a).
  { rewrite <- Z.pow_add_r by lia. replace (e + 52) with (Z.log2 a) by (unfold e; lia).
    exact Hlo. }
  assert (Hhi' : a < 2 ^ e * 2 ^ 53).
  { rewrite <- Z.pow_add_r by lia.
    replace (e + 53) with (Z.succ (Z.log2 a)) by (unfold e; lia). exact Hhi. }
  assert (Hq1 : 2 ^ 52 <= a / 2 ^ e) by (apply Z.div_le_lower_bound; assumption).
  assert (Hq2 : a / 2 ^ e < 2 ^ 53) by (apply Z.div_lt_upper_bound; assumption).
  pose proof (Z.mod_pos_bound (a / 2 ^ e) 2 ltac:(lia)) as Hm.
  eexists. exists e. split; [reflexivity |]. split; [exact He |].
  split; [| reflexivity].
  destruct (2 * (a mod 2 ^ e) <? 2 ^ e); [lia |].
  destruct (2 ^ e <? 2 * (a mod 2 ^ e)); lia.
Qed.

Lemma round53_small (z : Z) : Z.abs z < 2 ^ 53 -> round53 z = z.
Proof.
  intros H. unfold round53. apply Z.ltb_lt in H. rewrite H. reflexivity.
Qed.

Lemma round53_nonneg (z : Z) : 0 <= z -> 0 <= round53 z.
Proof.
  intros Hz. destruct (Z_lt_le_dec (Z.abs z) (2 ^ 53)) as [H | H].
  - rewrite round53_small; assumption.
  - destruct (@round53_shape z H) as [q [e [_ [He [Hq ->]]]]].
    assert (0 < 2 ^ e) by (apply Z.pow_pos_nonneg; lia).
    assert (0 <= Z.sgn z) by (apply Z.sgn_nonneg; exact Hz).
    apply Z.mul_nonneg_nonneg; [assumption |].
    apply Z.mul_nonneg_nonneg; lia.
Qed.

Lemma round53_opp (z : Z) : round53 (- z) = - round53 z.
Proof.
  unfold round53. rewrite Z.abs_opp, Z.sgn_opp.
  destruct (Z.abs z <? 2 ^ 53); [reflexivity | ring].
Qed.

(** An INTEGER is converted to a double of at most [2^63]. *)
Lemma round53_int64 (z : Z) : 0 <= z <= int64_max -> round53 z <= 2 ^ 63.
Proof.
  unfold int64_max. intros [Hz Hm].
  destruct (Z_lt_le_dec (Z.abs z) (2 ^ 53)) as [H | H].
  - rewrite round53_small by assumption. lia.
  - destruct (@round53_shape z H) as [q [e [Ee [He [Hq ->]]]]].
    rewrite Z.abs_eq in * by assumption.
    assert (Hz0 : 0 < z) by (assert (0 < 2 ^ 53) by (apply Z.pow_pos_nonneg; lia); lia).
    assert (Hl : Z.log2 z < 63) by (apply Z.log2_lt_pow2; lia).
    rewrite Z.sgn_pos by assumption.
    assert (H10 : 2 ^ e <= 2 ^ 10) by (apply Z.pow_le_mono_r; lia).
    assert (0 < 2 ^ e) by (apply Z.pow_pos_nonneg; lia).
    replace (2 ^ 63) with (2 ^ 53 * 2 ^ 10) by reflexivity.
    rewrite Z.mul_1_l. apply Z.mul_le_mono_nonneg; lia.
Qed.

(** [2^63 - 1] is no double. *)
Lemma round53_not_max (z : Z) : round53 z <> int64_max.
Proof.
  unfold int64_max. intros E.
  destruct (Z_lt_le_dec (Z.abs z) (2 ^ 53)) as [H | H].
  - rewrite round53_small in E by assumption. subst z.
    rewrite Z.abs_eq in H by lia. lia.
  - destruct (@round53_shape z H) as [q [e [_ [He [_ Hr]]]]].
    rewrite Hr in E.
    replace e with (1 + (e - 1)) in E by lia.
    rewrite Z.pow_add_r in E by lia.
    change (2 ^ 1) with 2 in E.
    assert (Hk : exists k, 2 * k = 2 ^ 63 - 1).
    { exists (Z.sgn z * (q * 2 ^ (e - 1))). rewrite <- E. ring. }
    destruct Hk as [k Hk]. lia.
Qed.

Lemma stored_integer_affinity (z : Z) : stored (integer_affinity (round53 z)).
Proof.
  unfold integer_affinity.
  destruct ((int64_min <? round53 z) && (round53 z <? int64_max)) eqn:E; simpl.
  - apply andb_true_iff in E. destruct E as [E1 E2].
    apply Z.ltb_lt in E1, E2. apply fits_range. unfold int64_min, int64_max in *. lia.
  - pose proof (@round53_not_max z) as Hn.
    apply andb_false_iff in E. destruct E as [E | E]; apply Z.ltb_ge in E; lia.
Qed.

Lemma sql_add_stored (a : num) (b : Z) : stored (sql_add a b).
Proof.
  destruct a as [x | x]; simpl.
  - destruct (fits (x + b)) eqn:E; [exact E | apply stored_integer_affinity].
  - apply stored_integer_affinity.
Qed.

Lemma sql_add_nonneg (a : num) (b : Z) :
  0 <= value a -> 0 <= b -> 0 <= value (sql_add a b).
Proof.
  intros Ha Hb. destruct a as [x | x]; simpl in *.
  - destruct (fits (x + b)); simpl; [lia |].
    rewrite value_integer_affinity. apply round53_nonneg.
    pose proof (@round53_nonneg x Ha). pose proof (@round53_nonneg b Hb). lia.
  - rewrite value_integer_affinity. apply round53_nonneg.
    pose proof (@round53_nonneg b Hb). lia.
Qed.

(** Taking out no more than there is leaves no less than nothing. *)
Lemma sql_sub_nonneg (a : num) (b : Z) :
  stored a -> fits b = true -> 0 < b <= value a -> 0 <= value (sql_add a (- b)).
Proof.
  intros Ha Hb Hle. apply fits_range in Hb.
  destruct a as [x | x]; simpl in *.
  - apply fits_range in Ha.
    assert (E : fits (x + - b) = true) by (apply fits_range; lia).
    rewrite E. simpl. lia.
  - rewrite value_integer_affinity. apply round53_nonneg.
    rewrite round53_opp.
    assert (round53 b <= 2 ^ 63) by (apply round53_int64; unfold int64_max; lia).
    unfold int64_min, int64_max in Ha. lia.
Qed.

(** Within the range the sum is the sum. *)
Lemma sql_add_exact (x b : Z) : fits (x + b) = true -> sql_add (Int x) b = Int (x + b).
Proof. intros E. simpl. rewrite E. reflexivity. Qed.

(** ** Primary keys and quantities *)

Lemma fold_max_ge (l : list Z) (s x : Z) : In x l -> x <= fold_right Z.max s l.
Proof.
  induction l as [| y l IH]; simpl; [tauto |].
  intros [-> | H]; [lia | specialize (IH H); lia].
Qed.

Lemma next_rowid_fresh (R : Type) (key : R -> Z) (t : table R) (r : R) :
  In r (rows t) -> key r < next_rowid key t.
Proof.
  intros H. unfold next_rowid.
  pose proof (fold_max_ge (map key (rows t)) (seq t) (key r) (in_map key _ _ H)). lia.
Qed.

Lemma next_rowid_not_in (R : Type) (key : R -> Z) (t : table R) :
  ~ In (next_rowid key t) (map key (rows t)).
Proof.
  intros H. apply in_map_iff in H. destruct H as [r [E Hr]].
  apply (next_rowid_fresh key) in Hr. lia.
Qed.

Lemma update_quantity_ids (delta : Z) (pid : option Z) (t : table product_row) :
  map product_id (rows (update_quantity delta pid t)) = map product_id (rows t).
Proof.
  unfold update_quantity; simpl. rewrite map_map. apply map_ext.
  intros r. destruct (sql_eq (product_id r) pid); reflexivity.
Qed.

Lemma insert_row_unique (R : Type) (key : R -> Z) (mk : Z -> R) (t : table R) :
  (forall i, key (mk i) = i) ->
  NoDup (map key (rows t)) -> NoDup (map key (rows (insert_row key mk t))).
Proof.
  intros Hk H. unfold insert_row; simpl. rewrite map_app; simpl. rewrite Hk.
  apply (Permutation_NoDup (l := next_rowid key t :: map key (rows t))).
  - apply Permutation_cons_append.
  - constructor; [apply next_rowid_not_in | exact H].
Qed.

Lemma exec_sound (s : stmt) (d d' : db) :
  harmless s = true -> sound d -> exec s d = inr d' -> sound d'.
Proof.
  unfold sound, pk_unique, quantities_nonneg, quantities_stored, product_rows.
  intros Hh [Hu [Hq Hst]] H.
  destruct s; simpl in H, Hh; try discriminate;
    repeat match type of H with
           | context [match ?x with _ => _ end] => destruct x eqn:?
           end;
    inversion H; subst; clear H; simpl; auto.
  - (* CREATE TABLE Products *)
    unfold create_if_not_exists. destruct (Products d); simpl; repeat split; auto;
      constructor.
  - (* INSERT INTO Products *)
    match goal with
    | E : negb (fits q && _) = false |- _ =>
        apply negb_false_iff, andb_true_iff in E; destruct E as [Hfit _]
    end.
    split; [| split].
    + apply (insert_row_unique product_id (fun i => mkProduct i n c (Int q) p sid));
        [reflexivity | exact Hu].
    + apply Forall_app. split; [exact Hq |].
      constructor; [simpl; apply Z.leb_le; exact Hh | constructor].
    + apply Forall_app. split; [exact Hst |].
      constructor; [exact Hfit | constructor].
  - (* UPDATE ... quantity + ? *)
    apply Z.leb_le in Hh. split; [| split].
    + apply (eq_ind_r (fun l => NoDup l) Hu (update_quantity_ids qty pid t)).
    + apply Forall_map. revert Hq. apply Forall_impl.
      intros r Hr.
      destruct (sql_eq (product_id r) pid); simpl; [| exact Hr].
      apply sql_add_nonneg; assumption.
    + apply Forall_map. revert Hst. apply Forall_impl.
      intros r Hr.
      destruct (sql_eq (product_id r) pid); simpl; [| exact Hr].
      apply sql_add_stored.
Qed.

Lemma find_unique (l : list product_row) (pid : option Z) (p r : product_row) :
  NoDup (map product_id l) ->
  find (fun x => sql_eq (product_id x) pid) l = Some p ->
  In r l -> sql_eq (product_id r) pid = true -> r = p.
Proof.
  destruct pid as [i |]; simpl; [| discriminate].
  induction l as [| x l IH]; simpl; [discriminate |].
  intros Hu Hf Hin Hr. inversion Hu as [| ? ? Hx Hl]; subst.
  destruct (product_id x =? i) eqn:E.
  - injection Hf as Hf. destruct Hin as [Hin | Hin]; [congruence |].
    apply Z.eqb_eq in E, Hr. exfalso. apply Hx. rewrite E, <- Hr.
    apply in_map, Hin.
  - destruct Hin as [Hin | Hin]; [congruence |].
    apply IH; auto.
Qed.

(** The subtraction is safe when it follows the check of [stock_out] on
    the row that [get_product] returned. *)
Lemma sub_sound (d d1 : db) (pid : option Z) (p : product_row) (qty : Z) :
  sound d ->
  select_product pid d = inr (Some p) ->
  0 < qty <= value (quantity p) ->
  exec (UpdateQuantitySub qty pid) d = inr d1 ->
  sound d1.
Proof.
  unfold sound, pk_unique, quantities_nonneg, quantities_stored, product_rows,
    select_product.
  intros [Hu [Hq Hst]] Hs Hle He. simpl in He.
  destruct (Products d) as [t |]; [| discriminate].
  destruct (negb (fits_opt pid)); [discriminate |].
  destruct (negb (fits qty && fits_opt pid)) eqn:Hfit; [discriminate |].
  apply negb_false_iff, andb_true_iff in Hfit. destruct Hfit as [Hfit _].
  inversion Hs as [Hf]; clear Hs. inversion He; subst; clear He. simpl.
  rewrite Forall_forall in Hq, Hst.
  split; [| split].
  - apply (eq_ind_r (fun l => NoDup l) Hu (update_quantity_ids (- qty) pid t)).
  - apply Forall_map. apply Forall_forall. intros r Hr.
    destruct (sql_eq (product_id r) pid) eqn:E; [| apply Hq, Hr].
    pose proof (@find_unique _ _ _ _ Hu Hf Hr E) as ->. simpl.
    apply sql_sub_nonneg; [apply Hst, Hr | exact Hfit | exact Hle].
  - apply Forall_map. apply Forall_forall. intros r Hr.
    destruct (sql_eq (product_id r) pid); [| apply Hst, Hr].
    simpl. apply sql_add_stored.
Qed.

Lemma keeps_sound_intro (A : Type) (m : M A) :
  preserves (both sound) m -> closes m -> keeps_sound m.
Proof.
  intros Hp Hc w Ht Hs. unfold post. split.
  - assert (Hw : holds (both sound) w).
    { split; [exact Hs |]. rewrite Ht. discriminate. }
    destruct (Hp w Hw) as [H _]. exact H.
  - exact (Hc w Ht).
Qed.

Lemma stock_out_keeps_sound (pid qty_in : option Z) (now : datetime) :
  keeps_sound (stock_out pid qty_in now).
Proof.
  intros w Ht Hs. destruct w as [f t fl lg c]; simpl in *; subst t.
  unfold stock_out. step. step. step.
  eapply post_mono.
  { apply (post_preserves (J := untouched f)).
    - apply view_products_preserves, untouched_rollback_closed.
    - split; reflexivity. }
  intros r w [Hf Htx].
  destruct w as [f1 t1 fl1 lg1 c1]; simpl in Hf, Htx; subst f1 t1.
  destruct r; auto.
  step. eapply post_mono; [apply get_product_post; reflexivity |].
  cbv beta. intros r w' [Hf' [Htx' [_ Hr]]].
  destruct w' as [f' t' fl' lg' c']; simpl in *; subst f' t'.
  destruct r as [[p |] | e |]; auto; try (step; auto).
  destruct Hr as [Hr _].
  destruct qty_in as [qty |]; [| step; auto].
  destruct (qty <=? 0) eqn:E1; [step; auto |].
  destruct (value (quantity p) <? qty) eqn:E2; [step; auto |].
  apply Z.leb_gt in E1. apply Z.ltb_ge in E2.
  guards.
  repeat step; auto.
  destruct (exec (UpdateQuantitySub qty pid) f) as [e | d1] eqn:E3; repeat step; auto.
  assert (Hd1 : sound d1) by (eapply sub_sound; eauto).
  destruct (exec (InsertTransaction pid OUT qty (strftime now)) d1) as [e | d2] eqn:E4;
    repeat step; auto.
  split; [| reflexivity].
  eapply exec_sound; [| exact Hd1 | exact E4]. reflexivity.
Qed.

Lemma keeps_sound_bind (A B : Type) (m : M A) (k : A -> M B) :
  keeps_sound m -> (forall a, keeps_sound (k a)) -> keeps_sound (bind m k).
Proof.
  intros Hm Hk w Ht Hs. apply post_bind.
  eapply post_mono; [exact (Hm w Ht Hs) |].
  intros [a | e |] w' [Hs' Ht']; auto.
  apply Hk; auto.
Qed.

Lemma keeps_sound_print (l : line) : keeps_sound (print l).
Proof. intros w Ht Hs. split; assumption. Qed.

Lemma harmless_stmt_ok (s : stmt) : harmless s = true -> stmt_ok (both sound) s.
Proof.
  intros Hh. apply both_stmt_ok. intros d d' Hd He. eapply exec_sound; eauto.
Qed.

Lemma run_action_keeps_sound (a : action) : keeps_sound (run_action a).
Proof.
  destruct a as [n c | | n c q p s | | pid q now | pid q now | t | |];
    try solve [ apply keeps_sound_intro; [| apply run_action_closes]; simpl;
                first [ apply add_supplier_preserves
                      | apply view_suppliers_preserves
                      | apply add_product_preserves
                      | apply view_products_preserves
                      | apply stock_in_preserves
                      | apply low_stock_report_preserves
                      | apply transaction_report_preserves
                      | apply preserves_print ];
                auto using both_rollback_closed, both_commit_closed, harmless_stmt_ok ].
  apply stock_out_keeps_sound.
Qed.

Lemma menu_loop_keeps_sound (acts : list action) : keeps_sound (menu_loop acts).
Proof.
  induction acts as [| a acts IH]; simpl.
  - apply keeps_sound_bind; [apply keeps_sound_print | intros _].
    apply keeps_sound_bind; [apply keeps_sound_print | intros _; apply keeps_sound_print].
  - apply keeps_sound_bind; [apply keeps_sound_print | intros _].
    apply keeps_sound_bind; [apply keeps_sound_print | intros _].
    apply keeps_sound_bind; [apply run_action_keeps_sound | intros _; exact IH].
Qed.

Lemma create_tables_keeps_sound : keeps_sound create_tables.
Proof.
  apply keeps_sound_intro; [| apply create_tables_closes].
  apply create_tables_preserves;
    auto using both_rollback_closed, both_commit_closed, harmless_stmt_ok.
Qed.

Lemma main_menu_keeps_sound (acts : list action) : keeps_sound (main_menu acts).
Proof.
  unfold main_menu.
  apply keeps_sound_bind; [apply create_tables_keeps_sound | intros _].
  apply keeps_sound_bind; [apply keeps_sound_print | intros _].
  apply menu_loop_keeps_sound.
Qed.

Lemma sound_empty : sound empty_db.
Proof. repeat split; constructor. Qed.

(** Started on an empty file, under any behaviour of the storage, the
    program never leaves a negative quantity in the file. *)
Lemma main_menu_quantities_nonneg (fl : list fault) (acts : list action) :
  quantities_nonneg
    (file_after (main_menu acts)
       {| file := empty_db; txn := None; faults := fl; sql_log := []; console := [] |}).
Proof.
  destruct (@main_menu_keeps_sound acts
              {| file := empty_db; txn := None; faults := fl;
                 sql_log := []; console := [] |} eq_refl sound_empty) as [[_ [H _]] _].
  exact H.
Qed.

(** ** Atomicity of the two writes of a stock movement *)

Lemma movement_unharmed_intro (fl : list fault) :
  hd Healthy (tl (tl (tl (tl fl)))) = Healthy ->
  hd Healthy (tl (tl (tl (tl (tl fl))))) = Healthy ->
  hd Healthy (tl (tl (tl (tl (tl (tl fl)))))) = Healthy ->
  hd Healthy (tl (tl (tl (tl (tl (tl (tl fl))))))) = Healthy ->
  movement_unharmed fl.
Proof.
  unfold movement_unharmed.
  destruct fl as [| f0 [| f1 [| f2 [| f3 [| f4 [| f5 [| f6 [| f7 fl]]]]]]]];
    simpl; auto.
Qed.

Lemma stock_in_atomic (pid qty_in : option Z) (now : datetime) (w : world) :
  txn w = None ->
  post (stock_in pid qty_in now) w
       (fun _ w' =>
          file w' = file w \/
          (movement_unharmed (faults w) /\
           exists qty, qty_in = Some qty /\ 0 < qty /\
             applied (UpdateQuantityAdd qty pid) (InsertTransaction pid IN qty (strftime now))
                     (file w) (file w'))).
Proof.
  intros Ht. destruct w as [f t fl lg c]; simpl in *; subst t.
  unfold stock_in. step. step. step.
  eapply post_mono; [apply view_products_post; reflexivity |].
  cbv beta. intros r w [Hf [Htx [_ Hfl]]].
  destruct w as [f1 t1 fl1 lg1 c1]; simpl in Hf, Htx, Hfl; subst f1 t1.
  destruct r; auto. subst fl1.
  step. eapply post_mono; [apply get_product_post; reflexivity |].
  cbv beta. intros r w' [Hf' [Htx' [_ Hr]]].
  destruct w' as [f' t' fl' lg' c']; simpl in *; subst f' t'.
  destruct r as [[p |] | e |]; auto; try (step; auto).
  destruct Hr as [Hr Hfl]. subst fl'.
  destruct qty_in as [qty |]; [| step; auto].
  destruct (qty <=? 0) eqn:E1; [step; auto |].
  repeat fstep; auto.
  destruct (exec (UpdateQuantityAdd qty pid) f) as [e | d1] eqn:E3; repeat fstep; auto.
  destruct (exec (InsertTransaction pid IN qty (strftime now)) d1) as [e | d2] eqn:E4;
    repeat fstep; auto.
  right. split.
  - apply movement_unharmed_intro; assumption.
  - exists qty. split; [reflexivity |]. split; [apply Z.leb_gt; exact E1 |].
    exists d1. split; assumption.
Qed.

Lemma stock_out_atomic (pid qty_in : option Z) (now : datetime) (w : world) :
  txn w = None ->
  post (stock_out pid qty_in now) w
       (fun _ w' =>
          file w' = file w \/
          (movement_unharmed (faults w) /\
           exists qty, qty_in = Some qty /\ 0 < qty /\
             applied (UpdateQuantitySub qty pid) (InsertTransaction pid OUT qty (strftime now))
                     (file w) (file w'))).
Proof.
  intros Ht. destruct w as [f t fl lg c]; simpl in *; subst t.
  unfold stock_out. step. step. step.
  eapply post_mono; [apply view_products_post; reflexivity |].
  cbv beta. intros r w [Hf [Htx [_ Hfl]]].
  destruct w as [f1 t1 fl1 lg1 c1]; simpl in Hf, Htx, Hfl; subst f1 t1.
  destruct r; auto. subst fl1.
  step. eapply post_mono; [apply get_product_post; reflexivity |].
  cbv beta. intros r w' [Hf' [Htx' [_ Hr]]].
  destruct w' as [f' t' fl' lg' c']; simpl in *; subst f' t'.
  destruct r as [[p |] | e |]; auto; try (step; auto).
  destruct Hr as [Hr Hfl]. subst fl'.
  destruct qty_in as [qty |]; [| step; auto].
  destruct (qty <=? 0) eqn:E1; [step; auto |].
  destruct (value (quantity p) <? qty) eqn:E2; [step; auto |].
  repeat fstep; auto.
  destruct (exec (UpdateQuantitySub qty pid) f) as [e | d1] eqn:E3; repeat fstep; auto.
  destruct (exec (InsertTransaction pid OUT qty (strftime now)) d1) as [e | d2] eqn:E4;
    repeat fstep; auto.
  right. split.
  - apply movement_unharmed_intro; assumption.
  - exists qty. split; [reflexivity |]. split; [apply Z.leb_gt; exact E1 |].
    exists d1. split; assumption.
Qed.

Lemma harmed_movement (fl : list fault) (i : nat) :
  (4 <= i <= 7)%nat -> nth i fl Healthy <> Healthy -> ~ movement_unharmed fl.
Proof.
  intros Hi Hn [H4 [H5 [H6 H7]]].
  assert (E : i = 4%nat \/ i = 5%nat \/ i = 6%nat \/ i = 7%nat) by lia.
  destruct E as [-> | [-> | [-> | ->]]]; contradiction.
Qed.

(** * Properties of the program *)

(** ** Quantities, atomicity and the audit trail *)

(** C4. The quantity update and the transaction insert of [stock_in] and
    [stock_out] are one unit: under every behaviour of the storage the
    file ends either as it was or with both writes applied, and a failure
    or a crash at the connection, the UPDATE, the INSERT or the commit
    (database calls 4 to 7 of the operation) leaves the file as it was. *)
Theorem stock_movement_atomic (w : world) (pid qty_in : option Z) (now : datetime) :
  txn w = None ->
  (file_after (stock_in pid qty_in now) w = file w \/
   exists qty, qty_in = Some qty /\
     applied (UpdateQuantityAdd qty pid) (InsertTransaction pid IN qty (strftime now))
             (file w) (file_after (stock_in pid qty_in now) w)) /\
  (file_after (stock_out pid qty_in now) w = file w \/
   exists qty, qty_in = Some qty /\
     applied (UpdateQuantitySub qty pid) (InsertTransaction pid OUT qty (strftime now))
             (file w) (file_after (stock_out pid qty_in now) w)) /\
  (forall i, (4 <= i <= 7)%nat -> nth i (faults w) Healthy <> Healthy ->
     file_after (stock_in pid qty_in now) w = file w /\
     file_after (stock_out pid qty_in now) w = file w).
Proof.
  intros Ht.
  pose proof (@stock_in_atomic pid qty_in now w Ht) as Hin.
  pose proof (@stock_out_atomic pid qty_in now w Ht) as Hout.
  unfold post in Hin, Hout. unfold file_after.
  split; [| split].
  - destruct Hin as [H | [_ [q [E [_ H]]]]]; [left | right; exists q]; auto.
  - destruct Hout as [H | [_ [q [E [_ H]]]]]; [left | right; exists q]; auto.
  - intros i Hi Hn. split.
    + destruct Hin as [H | [H _]]; auto.
      exfalso. eapply harmed_movement; eauto.
    + destruct Hout as [H | [H _]]; auto.
      exfalso. eapply harmed_movement; eauto.
Qed.

(** C6. Transaction rows are append-only: table creation, every menu
    operation and every run of the menu leave each transaction row of the
    file where it was and as it was; rows are only added after them. *)
Theorem transactions_append_only (w : world) :
  txn w = None ->
  extends (file w) (file_after create_tables w) /\
  (forall a, extends (file w) (file_after (run_action a) w)) /\
  (forall acts, extends (file w) (file_after (main_menu acts) w)).
Proof.
  intros Ht.
  assert (Hw : holds (both (extends (file w))) w).
  { split; [apply extends_refl |]. rewrite Ht. discriminate. }
  assert (Hs : forall s, stmt_ok (both (extends (file w))) s).
  { intros s. apply both_stmt_ok. intros d d' Hd He.
    eapply extends_trans; [exact Hd | eapply exec_extends; exact He]. }
  split; [| split].
  - exact (proj1 (@create_tables_preserves _ (@both_rollback_closed _)
                    (@both_commit_closed _) (fun s _ => Hs s) w Hw)).
  - intros a.
    exact (proj1 (@run_action_preserves _ (@both_rollback_closed _)
                    (@both_commit_closed _) Hs a w Hw)).
  - intros acts.
    exact (proj1 (@main_menu_preserves _ (@both_rollback_closed _)
                    (@both_commit_closed _) Hs acts w Hw)).
Qed.

(** ** Stock movements on a healthy storage *)












(** ** Stock movements that report success, under any storage *)

Lemma applied_moved (f d1 d2 : db) (pid : option Z) (k : trans_kind)
    (delta qty : Z) (u : stmt) (text : string) :
  (forall d, exec u d = match Products d with
                        | None => inl OperationalError
                        | Some t =>
                            if negb (fits qty && fits_opt pid) then inl OverflowError
                            else
                              inr {| Suppliers := Suppliers d;
                                     Products := Some (update_quantity delta pid t);
                                     Transactions := Transactions d |}
                        end) ->
  exec u f = inr d1 ->
  exec (InsertTransaction pid k qty text) d1 = inr d2 ->
  exists tp tt,
    Products f = Some tp /\ Transactions f = Some tt /\
    d2 = moved f tp tt pid k delta qty text.
Proof.
  intros Hu E1 E2. rewrite Hu in E1.
  destruct (Products f) as [tp |] eqn:EP; [| discriminate].
  destruct (negb (fits qty && fits_opt pid)); [discriminate |].
  injection E1 as <-. simpl in E2.
  destruct (Transactions f) as [tt |] eqn:ET; [| discriminate].
  destruct (negb (fits_opt pid && fits qty)); [discriminate |].
  destruct (match pid with Some p => has_product p _ | None => true end);
    [| discriminate].
  injection E2 as <-. exists tp, tt. repeat split.
Qed.












(** ** [ORDER BY] sorts, and keeps every row *)

Section OrderBy.
Variable R : Type.
Variable le : R -> R -> bool.

Lemma insert_by_perm (x : R) (l : list R) : Permutation (insert_by le x l) (x :: l).
Proof.
  induction l as [| y l IH]; simpl; [reflexivity |].
  destruct (le x y); [reflexivity |].
  rewrite IH. apply perm_swap.
Qed.

Lemma order_by_perm (l : list R) : Permutation (order_by le l) l.
Proof.
  induction l as [| x l IH]; simpl; [reflexivity |].
  rewrite insert_by_perm. constructor. exact IH.
Qed.

Hypothesis le_total : forall x y, le x y = false -> le y x = true.
Hypothesis le_trans : forall x y z, le x y = true -> le y z = true -> le x z = true.

Lemma insert_by_sorted (x : R) (l : list R) :
  StronglySorted (fun a b => le a b = true) l ->
  StronglySorted (fun a b => le a b = true) (insert_by le x l).
Proof.
  induction 1 as [| y l Hs IH Hy]; simpl.
  - constructor; constructor.
  - destruct (le x y) eqn:E.
    + constructor; [constructor; assumption |].
      constructor; [exact E |].
      revert Hy. apply Forall_impl. intros z. apply le_trans. exact E.
    + constructor; [exact IH |].
      eapply Permutation_Forall.
      * symmetry. apply insert_by_perm.
      * constructor; [apply le_total; exact E | exact Hy].
Qed.

Lemma order_by_sorted (l : list R) :
  StronglySorted (fun a b => le a b = true) (order_by le l).
Proof.
  induction l as [| x l IH]; simpl; [constructor |].
  apply insert_by_sorted. exact IH.
Qed.
End OrderBy.

Lemma StronglySorted_weaken (A : Type) (P Q : A -> A -> Prop) (l : list A) :
  (forall a b, P a b -> Q a b) -> StronglySorted P l -> StronglySorted Q l.
Proof.
  intros H. induction 1 as [| x l Hs IH Hx]; constructor; auto.
  revert Hx. apply Forall_impl. intros b. apply H.
Qed.

Lemma StronglySorted_map (A B : Type) (f : A -> B) (Q : B -> B -> Prop) (l : list A) :
  StronglySorted (fun a b => Q (f a) (f b)) l -> StronglySorted Q (map f l).
Proof.
  induction 1 as [| x l Hs IH Hx]; simpl; constructor; auto.
  apply Forall_map. exact Hx.
Qed.

(** ** The reports *)

Lemma low_stock_lines_map (l : list (Z * string * num)) :
  low_stock_lines (map LowStockLine l) = l.
Proof. induction l as [| x l IH]; simpl; [| rewrite IH]; reflexivity. Qed.

Lemma transaction_lines_map (l : list (trans_row * option string)) :
  transaction_lines (map TransLine l) = l.
Proof. induction l as [| x l IH]; simpl; [| rewrite IH]; reflexivity. Qed.

Lemma low_stock_report_output (d : db) (threshold : Z) :
  0 <= threshold ->
  low_stock_lines (console_after (low_stock_report (Some threshold)) (boot d))
  = match select_low_stock threshold d with
    | inr rws => rws
    | inl _ => []
    end.
Proof.
  intros Ht.
  change (post (low_stock_report (Some threshold)) (boot d)
            (fun _ w' => low_stock_lines (console w')
                         = match select_low_stock threshold d with
                           | inr rws => rws
                           | inl _ => []
                           end)).
  unfold boot, low_stock_report. step. step.
  destruct (threshold <? 0) eqn:E; [guards; lia |].
  repeat fstep; try congruence.
  destruct (select_low_stock threshold d) as [e | [| r rws]]; repeat step;
    try reflexivity.
  unfold low_stock_lines. rewrite flat_map_app. simpl.
  f_equal. apply low_stock_lines_map.
Qed.

Lemma transaction_report_output (d : db) :
  transaction_lines (console_after transaction_report (boot d))
  = match select_transactions_join d with
    | inr rws => rws
    | inl _ => []
    end.
Proof.
  change (post transaction_report (boot d)
            (fun _ w' => transaction_lines (console w')
                         = match select_transactions_join d with
                           | inr rws => rws
                           | inl _ => []
                           end)).
  unfold boot, transaction_report. step. step.
  repeat fstep; try congruence.
  destruct (select_transactions_join d) as [e | [| r rws]] eqn:E; repeat step;
    try reflexivity.
  unfold transaction_lines. rewrite flat_map_app. simpl.
  f_equal. apply transaction_lines_map.
Qed.

(** A report writes nothing, whatever the storage does. *)
Lemma untouched_file (A : Type) (m : M A) (w : world) :
  preserves (untouched (file w)) m -> txn w = None -> file_after m w = file w.
Proof.
  intros Hp Ht. destruct (Hp w (conj eq_refl Ht)) as [H _]. exact H.
Qed.

(** C7. For a threshold from zero to [2^63 - 1], the low-stock report
    prints exactly the products whose quantity is at most the threshold,
    each once, in ascending order of quantity, and it leaves the file as
    it was. *)
Theorem low_stock_report_correct (d : db) (threshold : Z) :
  0 <= threshold <= int64_max ->
  Permutation
    (low_stock_lines (console_after (low_stock_report (Some threshold)) (boot d)))
    (map (fun r => (product_id r, name r, quantity r))
         (filter (fun r => value (quantity r) <=? threshold) (product_rows d))) /\
  StronglySorted (fun a b => value (snd a) <= value (snd b))
    (low_stock_lines (console_after (low_stock_report (Some threshold)) (boot d))) /\
  (forall w, txn w = None ->
     file_after (low_stock_report (Some threshold)) w = file w).
Proof.
  intros [Ht Hm]. rewrite (low_stock_report_output d Ht).
  assert (Hf : fits threshold = true).
  { apply fits_range. unfold int64_max in Hm. lia. }
  unfold select_low_stock, product_rows. rewrite Hf. simpl.
  split; [| split].
  - destruct (Products d) as [t |]; [| reflexivity].
    apply Permutation_map, order_by_perm.
  - destruct (Products d) as [t |]; [| constructor].
    apply StronglySorted_map. simpl.
    eapply StronglySorted_weaken; [| apply order_by_sorted].
    + intros a b H. apply Z.leb_le. exact H.
    + intros x y H. apply Z.leb_le. apply Z.leb_gt in H. lia.
    + intros x y z H1 H2. apply Z.leb_le. apply Z.leb_le in H1, H2. lia.
  - intros w Hw. apply untouched_file; [| exact Hw].
    apply low_stock_report_preserves, untouched_rollback_closed.
Qed.

Lemma low_stock_report_correct_witness :
  Permutation
    (low_stock_lines (console_after (low_stock_report (Some 20)) (boot sample_db)))
    (map (fun r => (product_id r, name r, quantity r))
         (filter (fun r => value (quantity r) <=? 20) (product_rows sample_db))) /\
  StronglySorted (fun a b => value (snd a) <= value (snd b))
    (low_stock_lines (console_after (low_stock_report (Some 20)) (boot sample_db))) /\
  (forall w, txn w = None -> file_after (low_stock_report (Some 20)) w = file w).
Proof.
  apply (@low_stock_report_correct sample_db 20). unfold int64_max. lia.
Defined.

(** At the threshold [2^63] the report prints no product, although the
    one product of the sample file, of quantity 10, is below it: binding
    the threshold raises [OverflowError]. *)
Lemma low_stock_threshold_beyond_int64 :
  fst (low_stock_report (Some (2 ^ 63)) (boot sample_db)) = Raise OverflowError /\
  ~ Permutation
      (low_stock_lines (console_after (low_stock_report (Some (2 ^ 63)))
                                      (boot sample_db)))
      (map (fun r => (product_id r, name r, quantity r))
           (filter (fun r => value (quantity r) <=? 2 ^ 63) (product_rows sample_db))).
Proof.
  split; [vm_compute; reflexivity |].
  intros H. vm_compute in H. apply Permutation_nil in H. discriminate.
Qed.

(** ** The order of the transaction report *)

Lemma text_compare_refl (s : string) : text_compare s s = Eq.
Proof.
  unfold text_compare. pose proof (String.compare_antisym s s) as H.
  destruct (String.compare s s); simpl in H; congruence.
Qed.

Lemma text_compare_gt_trans (s1 s2 s3 : string) :
  text_compare s1 s2 = Gt -> text_compare s2 s3 = Gt -> text_compare s1 s3 = Gt.
Proof.
  unfold text_compare. revert s2 s3.
  induction s1 as [| a s1 IH]; intros [| b s2] [| c s3]; simpl; try congruence.
  unfold Ascii.compare.
  destruct (N.compare_spec (Ascii.N_of_ascii a) (Ascii.N_of_ascii b)) as [E1 | E1 | E1],
           (N.compare_spec (Ascii.N_of_ascii b) (Ascii.N_of_ascii c)) as [E2 | E2 | E2],
           (N.compare_spec (Ascii.N_of_ascii a) (Ascii.N_of_ascii c)) as [E3 | E3 | E3];
    try congruence; try lia.
  apply IH.
Qed.

Lemma trans_before_newer_first (a b : trans_row) :
  trans_before a b = true -> newer_first a b.
Proof.
  unfold trans_before, newer_first.
  destruct (text_compare (date a) (date b)) eqn:E; try discriminate; auto.
  intros H. right. split; [apply String.compare_eq_iff; exact E | apply Z.leb_le; exact H].
Qed.

Lemma trans_before_total (a b : trans_row) :
  trans_before a b = false -> trans_before b a = true.
Proof.
  unfold trans_before, text_compare.
  rewrite (String.compare_antisym (date b) (date a)).
  destruct (String.compare (date a) (date b)); simpl; try discriminate; auto.
  intros H. apply Z.leb_le. apply Z.leb_gt in H. lia.
Qed.

Lemma trans_before_trans (a b c : trans_row) :
  trans_before a b = true -> trans_before b c = true -> trans_before a c = true.
Proof.
  unfold trans_before.
  destruct (text_compare (date a) (date b)) eqn:E1; try discriminate;
    destruct (text_compare (date b) (date c)) eqn:E2; try discriminate; intros H1 H2.
  - apply String.compare_eq_iff in E1, E2. rewrite E1, E2, text_compare_refl.
    apply Z.leb_le. apply Z.leb_le in H1, H2. lia.
  - apply String.compare_eq_iff in E1. rewrite E1, E2. reflexivity.
  - apply String.compare_eq_iff in E2. rewrite <- E2, E1. reflexivity.
  - rewrite (text_compare_gt_trans _ _ _ E1 E2). reflexivity.
Qed.

(** The text [strftime] writes sorts as the readings of the clock do. *)
Lemma digit_compare (a b : Z) :
  0 <= a <= 9 -> 0 <= b <= 9 -> Ascii.compare (digit a) (digit b) = (a ?= b).
Proof.
  intros Ha Hb. unfold Ascii.compare, digit.
  rewrite !Ascii.N_ascii_embedding by lia.
  rewrite <- N2Z.inj_compare, !N2Z.inj_add, !Z2N.id by lia.
  apply Z.add_compare_mono_l.
Qed.

Lemma compare_two_digits (m n : Z) (s t : string) :
  0 <= m < 100 -> 0 <= n < 100 ->
  String.compare (two_digits m ++ s) (two_digits n ++ t)
  = then_compare (m ?= n) (String.compare s t).
Proof.
  intros Hm Hn. unfold two_digits. simpl.
  assert (Hm1 : 0 <= m / 10 <= 9)
    by (split; [apply Z.div_pos | apply Z.lt_succ_r, Z.div_lt_upper_bound]; lia).
  assert (Hn1 : 0 <= n / 10 <= 9)
    by (split; [apply Z.div_pos | apply Z.lt_succ_r, Z.div_lt_upper_bound]; lia).
  pose proof (Z.mod_pos_bound m 10 ltac:(lia)) as Hm2.
  pose proof (Z.mod_pos_bound n 10 ltac:(lia)) as Hn2.
  rewrite !digit_compare by lia.
  pose proof (Z.div_mod m 10 ltac:(lia)) as Em.
  pose proof (Z.div_mod n 10 ltac:(lia)) as En.
  unfold then_compare.
  destruct (Z.compare_spec (m / 10) (n / 10)), (Z.compare_spec (m mod 10) (n mod 10)),
    (Z.compare_spec m n); try reflexivity; exfalso; lia.
Qed.

Lemma compare_same_head (c : Ascii.ascii) (s t : string) :
  String.compare (String c s) (String c t) = String.compare s t.
Proof.
  simpl. unfold Ascii.compare. rewrite N.compare_refl. reflexivity.
Qed.

Lemma compare_two_digits_end (m n : Z) :
  0 <= m < 100 -> 0 <= n < 100 ->
  String.compare (two_digits m) (two_digits n) = (m ?= n).
Proof.
  intros Hm Hn.
  pose proof (@compare_two_digits m n EmptyString EmptyString Hm Hn) as H.
  unfold two_digits in *. simpl in *. rewrite H.
  unfold then_compare. destruct (m ?= n); reflexivity.
Qed.

Lemma year_split (a b : Z) (c : comparison) :
  0 <= a -> 0 <= b ->
  then_compare (a / 100 ?= b / 100) (then_compare (a mod 100 ?= b mod 100) c)
  = then_compare (a ?= b) c.
Proof.
  intros Ha Hb.
  pose proof (Z.div_mod a 100 ltac:(lia)) as Ea.
  pose proof (Z.div_mod b 100 ltac:(lia)) as Eb.
  pose proof (Z.mod_pos_bound a 100 ltac:(lia)).
  pose proof (Z.mod_pos_bound b 100 ltac:(lia)).
  unfold then_compare.
  destruct (Z.compare_spec (a / 100) (b / 100)), (Z.compare_spec (a mod 100) (b mod 100)),
    (Z.compare_spec a b); try reflexivity; exfalso; lia.
Qed.

Lemma strftime_chronological (a b : datetime) :
  valid_datetime a -> valid_datetime b ->
  text_compare (strftime a) (strftime b) = chrono_compare a b.
Proof.
  intros [Hy [Hmo [Hd [Hh [Hmi Hs]]]]] [Hy' [Hmo' [Hd' [Hh' [Hmi' Hs']]]]].
  unfold text_compare, strftime, chrono_compare.
  assert (0 <= year a / 100 < 100 /\ 0 <= year b / 100 < 100) as [H1 H2].
  { split; (split; [apply Z.div_pos | apply Z.div_lt_upper_bound]; lia). }
  pose proof (Z.mod_pos_bound (year a) 100 ltac:(lia)).
  pose proof (Z.mod_pos_bound (year b) 100 ltac:(lia)).
  cbn [append].
  rewrite !compare_two_digits by lia. rewrite compare_same_head.
  rewrite !compare_two_digits by lia. rewrite compare_same_head.
  rewrite !compare_two_digits by lia. rewrite compare_same_head.
  rewrite !compare_two_digits by lia. rewrite compare_same_head.
  rewrite !compare_two_digits by lia. rewrite compare_same_head.
  rewrite compare_two_digits_end by lia.
  apply year_split; lia.
Qed.

Lemma newer_first_later_first (a b : trans_row) : newer_first a b -> later_first a b.
Proof.
  intros H ta tb Va Vb Ea Eb. unfold newer_first in H. rewrite Ea, Eb in H.
  rewrite (strftime_chronological Va Vb) in H.
  destruct H as [H | [H Hid]]; [left; exact H | right].
  split; [| exact Hid].
  rewrite <- (strftime_chronological Va Vb), H. apply text_compare_refl.
Qed.

(** C8. The transaction report prints every transaction row, each once
    and each with the name of its product, latest date first and, for
    equal dates, highest transaction id first, which for dates written by
    [strftime] is latest time first; it leaves the file as it was. *)
Theorem transaction_report_correct (d : db) :
  schema_ready d ->
  Permutation (map fst (transaction_lines (console_after transaction_report (boot d))))
              (trans_rows d) /\
  (forall x, In x (transaction_lines (console_after transaction_report (boot d))) ->
     snd x = option_map name (lookup_product (trans_product (fst x)) d)) /\
  StronglySorted newer_first
    (map fst (transaction_lines (console_after transaction_report (boot d)))) /\
  StronglySorted later_first
    (map fst (transaction_lines (console_after transaction_report (boot d)))) /\
  (forall w, txn w = None -> file_after transaction_report w = file w).
Proof.
  intros [_ [HP HT]]. rewrite (transaction_report_output d).
  unfold select_transactions_join, trans_rows, lookup_product, product_rows.
  destruct (Transactions d) as [tt |]; [clear HT | congruence].
  destruct (Products d) as [tp |]; [clear HP | congruence].
  assert (Hsorted : StronglySorted newer_first (order_by trans_before (rows tt))).
  { eapply StronglySorted_weaken; [apply trans_before_newer_first |].
    apply order_by_sorted; [apply trans_before_total | apply trans_before_trans]. }
  split; [| split; [| split; [| split]]].
  - rewrite map_map. simpl. rewrite map_id. apply order_by_perm.
  - intros x Hx. apply in_map_iff in Hx. destruct Hx as [r [<- _]]. reflexivity.
  - rewrite map_map. simpl. rewrite map_id. exact Hsorted.
  - rewrite map_map. simpl. rewrite map_id.
    eapply StronglySorted_weaken; [apply newer_first_later_first | exact Hsorted].
  - intros w Hw. apply untouched_file; [| exact Hw].
    apply transaction_report_preserves, untouched_rollback_closed.
Qed.

Lemma transaction_report_correct_witness :
  Permutation
    (map fst (transaction_lines (console_after transaction_report (boot sample_db))))
    (trans_rows sample_db) /\
  (forall x, In x (transaction_lines (console_after transaction_report (boot sample_db))) ->
     snd x = option_map name (lookup_product (trans_product (fst x)) sample_db)) /\
  StronglySorted newer_first
    (map fst (transaction_lines (console_after transaction_report (boot sample_db)))) /\
  StronglySorted later_first
    (map fst (transaction_lines (console_after transaction_report (boot sample_db)))) /\
  (forall w, txn w = None -> file_after transaction_report w = file w).
Proof.
  apply (@transaction_report_correct sample_db).
  repeat split; simpl; discriminate.
Defined.

(** ** Table creation *)

Lemma create_tables_noop (w : world) :
  txn w = None -> schema_ready (file w) ->
  post create_tables w (fun _ w' => file w' = file w /\ txn w' = None).
Proof.
  intros Ht [Hs [Hp Htr]].
  destruct w as [[[ts |] [tp |] [tt |]] t fl lg c]; simpl in *; try congruence.
  subst t. unfold create_tables.
  repeat (first [ fstep
                | progress cbn [exec create_if_not_exists Suppliers Products
                                Transactions] ];
          try (split; reflexivity)).
Qed.

(** C9. [create_tables] is idempotent: run on a file that has the three
    tables it changes nothing, under any behaviour of the storage, so a
    second run after a first adds nothing to it; and on a healthy storage
    two runs in a row leave any file exactly as one run does, with the
    three tables present. *)
Theorem create_tables_idempotent (w : world) :
  txn w = None ->
  schema_ready (file w) ->
  file_after create_tables w = file w /\
  file_after (create_tables ;; create_tables) w = file_after create_tables w /\
  (forall d, file_after (create_tables ;; create_tables) (boot d)
             = file_after create_tables (boot d) /\
             schema_ready (file_after create_tables (boot d)) /\
             supplier_rows (file_after create_tables (boot d)) = supplier_rows d /\
             product_rows (file_after create_tables (boot d)) = product_rows d /\
             trans_rows (file_after create_tables (boot d)) = trans_rows d).
Proof.
  intros Ht Hs.
  pose proof (create_tables_noop w Ht Hs) as H1. unfold post in H1.
  destruct H1 as [Hf Htx]. unfold file_after in *.
  split; [exact Hf | split].
  - unfold bind. destruct (create_tables w) as [[[] | e |] w1] eqn:E; simpl in *; auto.
    rewrite <- Hf in Hs.
    pose proof (create_tables_noop w1 Htx Hs) as H2. unfold post in H2.
    destruct H2 as [H2 _]. exact H2.
  - intros [[ts |] [tp |] [tt |]];
      (split; [reflexivity | split; [repeat split; simpl; discriminate |]]);
      repeat split.
Qed.

Lemma create_tables_idempotent_witness :
  file_after create_tables (boot sample_db) = file (boot sample_db) /\
  file_after (create_tables ;; create_tables) (boot sample_db)
  = file_after create_tables (boot sample_db) /\
  (forall d, file_after (create_tables ;; create_tables) (boot d)
             = file_after create_tables (boot d) /\
             schema_ready (file_after create_tables (boot d)) /\
             supplier_rows (file_after create_tables (boot d)) = supplier_rows d /\
             product_rows (file_after create_tables (boot d)) = product_rows d /\
             trans_rows (file_after create_tables (boot d)) = trans_rows d).
Proof.
  apply (@create_tables_idempotent (boot sample_db)).
  - reflexivity.
  - repeat split; simpl; discriminate.
Defined.

(** ** Adding a product *)

Lemma issues_none (P : stmt -> bool) (w w' : world) :
  sql_log w' = sql_log w -> issues P w w'.
Proof. intros H. exists []. rewrite app_nil_r. auto. Qed.

Lemma issues_one (P : stmt -> bool) (w w' : world) (s : stmt) :
  sql_log w' = sql_log w ++ [s] -> P s = true -> issues P w w'.
Proof. intros H Hs. exists [s]. simpl. rewrite Hs. auto. Qed.

Lemma issues_trans (P : stmt -> bool) (w1 w2 w3 : world) :
  issues P w1 w2 -> issues P w2 w3 -> issues P w1 w3.
Proof.
  intros [l1 [E1 H1]] [l2 [E2 H2]]. exists (l1 ++ l2). split.
  - rewrite E2, E1. symmetry. apply app_assoc.
  - rewrite forallb_app, H1, H2. reflexivity.
Qed.

Lemma view_suppliers_post (P : stmt -> bool) (w : world) :
  P SelectSuppliers = true ->
  txn w = None ->
  post view_suppliers w
       (fun r w' => file w' = file w /\ txn w' = None /\ issues P w w' /\
                    match r with
                    | Ret _ => faults w' = tl (tl (faults w))
                    | _ => faults w <> []
                    end).
Proof.
  intros HP Ht. destruct w as [f t fl lg c]; simpl in *; subst t.
  unfold view_suppliers.
  repeat fstep;
    try solve [ repeat split;
                first [ apply issues_none; reflexivity
                      | eapply issues_one; [reflexivity | exact HP]
                      | destruct fl; simpl in *; congruence
                      | reflexivity ] ].
  destruct (select_suppliers f) as [e | [| r rws]] eqn:E; repeat step;
    repeat split; eapply issues_one; solve [reflexivity | exact HP].
Qed.

(** [supplier_exists] writes nothing and answers whether the file has a
    supplier row with the id; an id outside 64 bits ends it in
    [OverflowError]. *)
Lemma supplier_exists_post (P : stmt -> bool) (s : Z) (w : world) :
  P (SelectSupplierExists s) = true ->
  txn w = None ->
  post (supplier_exists (Some s)) w
       (fun r w' => file w' = file w /\ txn w' = None /\ issues P w w' /\
                    console w' = console w /\
                    match r with
                    | Ret b =>
                        faults w' = tl (tl (faults w)) /\ fits s = true /\
                        exists ts, Suppliers (file w) = Some ts /\ b = has_supplier s ts
                    | Raise e => faults w <> [] \/ Suppliers (file w) = None \/
                                 (fits s = false /\ e = OverflowError)
                    | Killed => faults w <> []
                    end).
Proof.
  intros HP Ht. destruct w as [f t fl lg c]; simpl in *; subst t.
  unfold supplier_exists.
  repeat fstep;
    try solve [ repeat split;
                first [ apply issues_none; reflexivity
                      | eapply issues_one; [reflexivity | exact HP]
                      | left; destruct fl; simpl in *; congruence
                      | destruct fl; simpl in *; congruence
                      | reflexivity ] ].
  unfold select_supplier_exists.
  destruct (Suppliers f) as [ts |] eqn:E; [destruct (fits s) eqn:Hs; simpl |];
    repeat step; repeat split; auto;
    try (eapply issues_one; solve [reflexivity | exact HP]).
  exists ts. split; [reflexivity |].
  unfold has_supplier. induction (rows ts) as [| x l IH]; simpl; [reflexivity |].
  destruct (supplier_id x =? s); simpl; auto.
Qed.

Lemma add_product_missing_supplier (n c : string) (q : option Z) (p : float) (s : Z)
    (w : world) :
  txn w = None ->
  (forall ts, Suppliers (file w) = Some ts -> has_supplier s ts = false) ->
  post (add_product n c q p (Some s)) w
       (fun r w' =>
          file w' = file w /\ issues not_product_insert w w' /\
          (n <> ""%string -> (exists v, q = Some v /\ 0 <= v) ->
           match r with
           | Ret _ => fits s = true /\
                      last (console w') (Text "") = supplier_missing_text
           | Raise e => faults w <> [] \/ Suppliers (file w) = None \/
                        (fits s = false /\ e = OverflowError)
           | Killed => faults w <> []
           end)).
Proof.
  intros Ht Hmiss. destruct w as [f t fl lg c0]; simpl in *; subst t.
  unfold add_product. step. step.
  destruct (n =? "")%string eqn:En.
  { apply String.eqb_eq in En. step. split; [reflexivity | split; [apply issues_none; reflexivity |]].
    intros Hn; congruence. }
  destruct q as [v |].
  2: { step. split; [reflexivity | split; [apply issues_none; reflexivity |]].
       intros _ [v [Hv _]]; discriminate. }
  destruct (v <? 0) eqn:Ev.
  { step. split; [reflexivity | split; [apply issues_none; reflexivity |]].
    intros _ [v' [Hv' Hle]]. inversion Hv'; subst. guards. lia. }
  step. step. step.
  eapply post_mono;
    [apply (@view_suppliers_post not_product_insert); reflexivity |].
  cbv beta. intros r w [Hf [Htx [Hi1 Hfl]]].
  destruct r.
  2: { split; [exact Hf | split; [exact Hi1 | intros _ _; left; exact Hfl]]. }
  2: { split; [exact Hf | split; [exact Hi1 | intros _ _; exact Hfl]]. }
  step. step.
  eapply post_mono;
    [apply (@supplier_exists_post not_product_insert s); [reflexivity | exact Htx] |].
  cbv beta. intros r w' [Hf' [Htx' [Hi2 [Hc Hr]]]].
  pose proof (issues_trans Hi1 Hi2) as Hi. rewrite Hf in *. simpl in Hfl.
  clear Hi1 Hi2.
  destruct w' as [f' t' fl' lg' c']; simpl in Hf', Htx'; subst f' t'.
  destruct r as [b | e |].
  - destruct Hr as [_ [Hs [ts [Ets ->]]]]. rewrite (Hmiss ts Ets).
    step. cbn [negb]. step. split; [reflexivity | split].
    + destruct Hi as [l [El Hl]]. exists l. split; assumption.
    + intros _ _. split; [exact Hs | apply last_last].
  - split; [reflexivity | split; [exact Hi |]].
    intros _ _. destruct Hr as [Hr | Hr]; [| right; exact Hr].
    left. intros E. subst fl. simpl in Hfl. rewrite Hfl in Hr. apply Hr. reflexivity.
  - split; [reflexivity | split; [exact Hi |]].
    intros _ _ E. subst fl. simpl in Hfl. rewrite Hfl in Hr. apply Hr. reflexivity.
Qed.

(** C5. An [add_product] that names a supplier id no supplier row has is
    turned down by the program itself: under any behaviour of the storage
    the file stays as it was and no INSERT into [Products] is issued, so
    the foreign key is never what refuses the row; with a valid name and
    quantity and a storage that works, the operation ends with the
    supplier warning when the id is within 64 bits, and in
    [OverflowError], raised by the supplier check, when it is not. *)
Theorem add_product_unknown_supplier_rejected (w : world) (n c : string)
    (q : option Z) (p : float) (s : Z) :
  txn w = None ->
  (forall r, In r (supplier_rows (file w)) -> supplier_id r <> s) ->
  file_after (add_product n c q p (Some s)) w = file w /\
  issues not_product_insert w (snd (add_product n c q p (Some s) w)) /\
  (n <> ""%string -> (exists v, q = Some v /\ 0 <= v) ->
   faults w = [] -> Suppliers (file w) <> None ->
   if fits s
   then fst (add_product n c q p (Some s) w) = Ret tt /\
        last (console_after (add_product n c q p (Some s)) w) (Text "")
        = supplier_missing_text
   else fst (add_product n c q p (Some s) w) = Raise OverflowError).
Proof.
  intros Ht Hmiss.
  assert (Hm : forall ts, Suppliers (file w) = Some ts -> has_supplier s ts = false).
  { intros ts E. unfold supplier_rows in Hmiss. rewrite E in Hmiss.
    unfold has_supplier. apply not_true_is_false. intros H.
    apply existsb_exists in H. destruct H as [r [Hr Hs]].
    apply Z.eqb_eq in Hs. exact (Hmiss r Hr Hs). }
  pose proof (@add_product_missing_supplier n c q p s w Ht Hm) as H.
  unfold post in H. destruct H as [Hf [Hi Hc]].
  unfold file_after, console_after.
  split; [exact Hf | split; [exact Hi |]].
  intros Hn Hq Hfl Hs. specialize (Hc Hn Hq).
  destruct (fst (add_product n c q p (Some s) w)) as [[] | e |].
  - destruct Hc as [-> Hc]. split; [reflexivity | exact Hc].
  - destruct Hc as [Hc | [Hc | [-> ->]]]; [contradiction | contradiction | reflexivity].
  - contradiction.
Qed.

Lemma add_product_unknown_supplier_rejected_witness :
  file_after (add_product "nut" "" (Some 5) 0.5%float (Some 7)) (boot sample_db)
  = file (boot sample_db) /\
  issues not_product_insert (boot sample_db)
    (snd (add_product "nut" "" (Some 5) 0.5%float (Some 7) (boot sample_db))) /\
  ("nut"%string <> ""%string -> (exists v, Some 5 = Some v /\ 0 <= v) ->
   faults (boot sample_db) = [] -> Suppliers (file (boot sample_db)) <> None ->
   if fits 7
   then fst (add_product "nut" "" (Some 5) 0.5%float (Some 7) (boot sample_db)) = Ret tt /\
        last (console_after (add_product "nut" "" (Some 5) 0.5%float (Some 7))
                (boot sample_db)) (Text "")
        = supplier_missing_text
   else fst (add_product "nut" "" (Some 5) 0.5%float (Some 7) (boot sample_db))
        = Raise OverflowError).
Proof.
  apply (@add_product_unknown_supplier_rejected (boot sample_db)).
  - reflexivity.
  - simpl. intros r [<- | []]. simpl. lia.
Defined.







(** * Runs on the sample file *)

Lemma stock_movement_atomic_witness :
  (file_after (stock_in (Some 1) (Some 4) (mkDatetime 2024 1 2 10 0 0))
     (fails_at_insert sample_db) = file (fails_at_insert sample_db) \/
   exists qty, Some 4 = Some qty /\
     applied (UpdateQuantityAdd qty (Some 1))
             (InsertTransaction (Some 1) IN qty "2024-01-02 10:00:00")
             (file (fails_at_insert sample_db))
             (file_after (stock_in (Some 1) (Some 4) (mkDatetime 2024 1 2 10 0 0))
                (fails_at_insert sample_db))) /\
  (file_after (stock_out (Some 1) (Some 4) (mkDatetime 2024 1 2 10 0 0))
     (fails_at_insert sample_db) = file (fails_at_insert sample_db) \/
   exists qty, Some 4 = Some qty /\
     applied (UpdateQuantitySub qty (Some 1))
             (InsertTransaction (Some 1) OUT qty "2024-01-02 10:00:00")
             (file (fails_at_insert sample_db))
             (file_after (stock_out (Some 1) (Some 4) (mkDatetime 2024 1 2 10 0 0))
                (fails_at_insert sample_db))) /\
  (forall i, (4 <= i <= 7)%nat ->
     nth i (faults (fails_at_insert sample_db)) Healthy <> Healthy ->
     file_after (stock_in (Some 1) (Some 4) (mkDatetime 2024 1 2 10 0 0))
       (fails_at_insert sample_db) = file (fails_at_insert sample_db) /\
     file_after (stock_out (Some 1) (Some 4) (mkDatetime 2024 1 2 10 0 0))
       (fails_at_insert sample_db) = file (fails_at_insert sample_db)).
Proof.
  apply (@stock_movement_atomic (fails_at_insert sample_db)). reflexivity.
Defined.

Lemma transactions_append_only_witness :
  extends (file (boot sample_db)) (file_after create_tables (boot sample_db)) /\
  (forall a, extends (file (boot sample_db)) (file_after (run_action a) (boot sample_db))) /\
  (forall acts,
     extends (file (boot sample_db)) (file_after (main_menu acts) (boot sample_db))).
Proof.
  apply (@transactions_append_only (boot sample_db)). reflexivity.
Defined.

(** The UPDATE ran, the INSERT was issued and failed, and the file is as
    before. *)
Example failure_between_writes :
  log_after (stock_in (Some 1) (Some 4) (mkDatetime 2024 1 2 10 0 0)) (fails_at_insert sample_db)
  = [SelectProductsJoin; SelectProduct (Some 1); UpdateQuantityAdd 4 (Some 1);
     InsertTransaction (Some 1) IN 4 "2024-01-02 10:00:00"] /\
  file_after (stock_in (Some 1) (Some 4) (mkDatetime 2024 1 2 10 0 0)) (fails_at_insert sample_db)
  = sample_db /\
  last (console_after (stock_in (Some 1) (Some 4) (mkDatetime 2024 1 2 10 0 0))
          (fails_at_insert sample_db)) (Text "")
  = DbError "stock_in" OperationalError.
Proof. vm_compute. repeat split. Qed.

(** The example of the specification: with a quantity of 10, a
    [stock_out] of 15 is turned down and changes nothing; a [stock_out] of
    4 leaves 6 and adds one OUT row of quantity 4. *)
Example stock_out_rejected_15 :
  file_after (stock_out (Some 1) (Some 15) (mkDatetime 2024 1 2 10 0 0)) (boot sample_db)
  = sample_db /\
  last (console_after (stock_out (Some 1) (Some 15) (mkDatetime 2024 1 2 10 0 0))
          (boot sample_db)) (Text "")
  = NotEnoughStock (Int 10).
Proof. vm_compute. split; reflexivity. Qed.

Example stock_out_accepted_4 :
  map quantity (product_rows
    (file_after (stock_out (Some 1) (Some 4) (mkDatetime 2024 1 2 10 0 0)) (boot sample_db)))
  = [Int 6] /\
  trans_rows
    (file_after (stock_out (Some 1) (Some 4) (mkDatetime 2024 1 2 10 0 0)) (boot sample_db))
  = trans_rows sample_db ++ [mkTrans 2 (Some 1) OUT 4 "2024-01-02 10:00:00"].
Proof. vm_compute. split; reflexivity. Qed.

(** The report lists later dates first, and higher ids first within a
    date. *)
Example transaction_report_order :
  map (fun x => trans_id (fst x))
      (transaction_lines
         (console_after
            (stock_in (Some 1) (Some 1) (mkDatetime 2024 1 2 10 0 0) ;;
             stock_in (Some 1) (Some 2) (mkDatetime 2024 1 2 10 0 0) ;;
             stock_out (Some 1) (Some 3) (mkDatetime 2024 1 1 8 0 0) ;;
             transaction_report)
            (boot sample_db)))
  = [3; 2; 1; 4].
Proof. vm_compute. reflexivity. Qed.

(** * Further properties of the operations *)

(** ** The prompts *)

Section PromptFacts.
Variable strip : string -> string.
Variable int_of : string -> option Z.
Variable float_of : string -> option float.

(** X1. [input_int] skips every line it does not accept, printing one
    warning for each, and answers with the first line it accepts: [None]
    for an empty line where that is allowed, the integer otherwise; the
    lines after it are left for the next prompt. *)
Theorem input_int_first_accepted (allow_empty : bool) (skipped : list string)
    (l : string) (rest : list string) :
  forallb (fun s => negb (accepted_int strip int_of allow_empty s)) skipped = true ->
  accepted_int strip int_of allow_empty l = true ->
  input_int strip int_of allow_empty (skipped ++ l :: rest)
  = (Answered (int_answer strip int_of allow_empty l) rest,
     repeat invalid_integer (List.length skipped)).
Proof.
  intros Hs Hl. induction skipped as [| s skipped IH]; simpl.
  - unfold accepted_int in Hl. unfold int_answer.
    destruct (allow_empty && (strip l =? "")%string); [reflexivity |].
    destruct (int_of (strip l)); [reflexivity | discriminate].
  - simpl in Hs. apply andb_true_iff in Hs. destruct Hs as [Hs1 Hs2].
    unfold accepted_int in Hs1.
    destruct (allow_empty && (strip s =? "")%string); [discriminate |].
    destruct (int_of (strip s)); [discriminate |].
    rewrite (IH Hs2). reflexivity.
Qed.

(** X2. When no line of the input is accepted, [input_int] prints one
    warning per line and ends in [EOFError]; it never answers with a line
    it does not accept. *)
Theorem input_int_exhausted (allow_empty : bool) (lines : list string) :
  forallb (fun s => negb (accepted_int strip int_of allow_empty s)) lines = true ->
  input_int strip int_of allow_empty lines
  = (EndOfInput, repeat invalid_integer (List.length lines)).
Proof.
  induction lines as [| s lines IH]; simpl; [reflexivity |].
  intros Hs. apply andb_true_iff in Hs. destruct Hs as [Hs1 Hs2].
  unfold accepted_int in Hs1.
  destruct (allow_empty && (strip s =? "")%string); [discriminate |].
  destruct (int_of (strip s)); [discriminate |].
  rewrite (IH Hs2). reflexivity.
Qed.

(** X3. Without [allow_empty], [input_int] never answers [None]: what it
    returns is an integer that [int] read from a line of the input, so a
    test [is None] on its result never holds. *)
Theorem input_int_required_is_integer (lines : list string) (a : option Z)
    (rest : list string) (out : list line) :
  input_int strip int_of false lines = (Answered a rest, out) ->
  exists n l, a = Some n /\ In l lines /\ int_of (strip l) = Some n.
Proof.
  revert out. induction lines as [| s lines IH]; simpl; intros out H.
  - discriminate.
  - destruct (int_of (strip s)) as [n |] eqn:E.
    + injection H as <- _ _. exists n, s. auto.
    + destruct (input_int strip int_of false lines) as [r o] eqn:E2.
      injection H as -> _.
      destruct (IH o eq_refl) as [n [l [Ha [Hin Hl]]]].
      exists n, l. auto.
Qed.

(** X4. [input_float] skips every line [float] does not read, printing one
    warning for each, and answers with the first one it reads; when there
    is none it ends in [EOFError]. *)
Theorem input_float_first_accepted (skipped : list string) (l : string)
    (rest : list string) (x : float) :
  forallb (fun s => negb (accepted_float strip float_of s)) skipped = true ->
  float_of (strip l) = Some x ->
  input_float strip float_of (skipped ++ l :: rest)
  = (Answered x rest, repeat invalid_number (List.length skipped)) /\
  input_float strip float_of skipped
  = (EndOfInput, repeat invalid_number (List.length skipped)).
Proof.
  intros Hs Hl. induction skipped as [| s skipped IH]; simpl.
  - rewrite Hl. split; reflexivity.
  - simpl in Hs. apply andb_true_iff in Hs. destruct Hs as [Hs1 Hs2].
    unfold accepted_float in Hs1.
    destruct (float_of (strip s)); [discriminate |].
    destruct (IH Hs2) as [-> ->]. split; reflexivity.
Qed.
End PromptFacts.

Lemma input_int_first_accepted_witness :
  input_int sample_strip sample_int_of true (["abc"%string; "x1"%string] ++ ""%string :: ["next"%string])
  = (Answered (int_answer sample_strip sample_int_of true ""%string) ["next"%string],
     repeat invalid_integer (List.length ["abc"%string; "x1"%string])).
Proof.
  apply (@input_int_first_accepted sample_strip sample_int_of true).
  - reflexivity.
  - reflexivity.
Defined.

Lemma input_int_exhausted_witness :
  input_int sample_strip sample_int_of false ["abc"%string; ""%string; "1.5"%string]
  = (EndOfInput, repeat invalid_integer (List.length ["abc"%string; ""%string; "1.5"%string])).
Proof.
  apply (@input_int_exhausted sample_strip sample_int_of false). reflexivity.
Defined.

Lemma input_int_required_is_integer_witness :
  exists n l, Some 7 = Some n /\ In l ["abc"%string; " 7 "%string; "x"%string] /\
              sample_int_of (sample_strip l) = Some n.
Proof.
  apply (@input_int_required_is_integer sample_strip sample_int_of
           ["abc"%string; " 7 "%string; "x"%string] (Some 7) ["x"%string] [invalid_integer]).
  reflexivity.
Defined.

Lemma input_float_first_accepted_witness :
  input_float sample_strip sample_float_of (["abc"%string; ""%string] ++ "12.50"%string :: ["next"%string])
  = (Answered 12.5%float ["next"%string],
     repeat invalid_number (List.length ["abc"%string; ""%string])) /\
  input_float sample_strip sample_float_of ["abc"%string; ""%string]
  = (EndOfInput, repeat invalid_number (List.length ["abc"%string; ""%string])).
Proof.
  apply (@input_float_first_accepted sample_strip sample_float_of).
  - reflexivity.
  - reflexivity.
Defined.

(** ** Invariants of the file under every run of the menu *)

(** A property that every statement keeps is kept by table creation, by
    every operation and by every run of the menu, whatever the storage
    does. *)
Lemma exec_closed_runs (I : db -> Prop) (w : world) :
  (forall s d d', I d -> exec s d = inr d' -> I d') ->
  txn w = None -> I (file w) ->
  I (file_after create_tables w) /\
  (forall a, I (file_after (run_action a) w)) /\
  (forall acts, I (file_after (main_menu acts) w)).
Proof.
  intros Hex Ht Hi.
  assert (Hw : holds (both I) w).
  { split; [exact Hi |]. rewrite Ht. discriminate. }
  assert (Hs : forall s, stmt_ok (both I) s).
  { intros s. apply both_stmt_ok. intros d d'. apply Hex. }
  split; [| split].
  - exact (proj1 (@create_tables_preserves _ (@both_rollback_closed _)
                    (@both_commit_closed _) (fun s _ => Hs s) w Hw)).
  - intros a.
    exact (proj1 (@run_action_preserves _ (@both_rollback_closed _)
                    (@both_commit_closed _) Hs a w Hw)).
  - intros acts.
    exact (proj1 (@main_menu_preserves _ (@both_rollback_closed _)
                    (@both_commit_closed _) Hs acts w Hw)).
Qed.

(** Splits the run of a statement into the cases of [exec]. *)
Ltac exec_cases H :=
  simpl in H;
  repeat match type of H with
         | context [match ?x with _ => _ end] => destruct x eqn:?
         end;
  inversion H; subst; clear H; simpl.

Lemma has_supplier_in (s : Z) (t : table supplier_row) :
  has_supplier s t = true -> In s (map supplier_id (rows t)).
Proof.
  unfold has_supplier. intros H. apply existsb_exists in H.
  destruct H as [r [Hr E]]. apply Z.eqb_eq in E. subst s. apply in_map, Hr.
Qed.

Lemma has_product_in (i : Z) (t : table product_row) :
  has_product i t = true -> In i (map product_id (rows t)).
Proof.
  unfold has_product. intros H. apply existsb_exists in H.
  destruct H as [r [Hr E]]. apply Z.eqb_eq in E. subst i. apply in_map, Hr.
Qed.

Lemma exec_references (s : stmt) (d d' : db) :
  references_resolve d -> exec s d = inr d' -> references_resolve d'.
Proof.
  unfold references_resolve, product_rows, supplier_rows, trans_rows.
  intros [Hp Ht] H.
  destruct s; exec_cases H; try (split; assumption).
  - (* CREATE TABLE Suppliers *)
    split; [| exact Ht]. intros p s Hin Hs. specialize (Hp p s Hin Hs).
    destruct (Suppliers d); simpl in *; auto.
  - (* CREATE TABLE Products *)
    destruct (Products d); simpl in *; split; auto.
  - (* CREATE TABLE Transactions *)
    split; [exact Hp |]. destruct (Transactions d); simpl in *; auto.
  - (* INSERT INTO Suppliers *)
    split; [| exact Ht]. intros p s Hin Hs.
    rewrite map_app. apply in_or_app. left. exact (Hp p s Hin Hs).
  - (* INSERT INTO Products *)
    split.
    + intros r s Hin Hs. apply in_app_or in Hin. destruct Hin as [Hin | [<- | []]].
      * exact (Hp r s Hin Hs).
      * simpl in Hs. subst sid. apply has_supplier_in. assumption.
    + intros r i Hin Hi. rewrite map_app. apply in_or_app. left.
      exact (Ht r i Hin Hi).
  - (* UPDATE ... quantity + ? *)
    split.
    + intros r s Hin Hs. apply in_map_iff in Hin. destruct Hin as [r0 [<- Hin]].
      apply (Hp r0 s Hin). destruct (sql_eq (product_id r0) pid); exact Hs.
    + intros r i Hin Hi. rewrite map_map.
      rewrite (map_ext _ product_id); [exact (Ht r i Hin Hi) |].
      intros r0. destruct (sql_eq (product_id r0) pid); reflexivity.
  - (* UPDATE ... quantity - ? *)
    split.
    + intros r s Hin Hs. apply in_map_iff in Hin. destruct Hin as [r0 [<- Hin]].
      apply (Hp r0 s Hin). destruct (sql_eq (product_id r0) pid); exact Hs.
    + intros r i Hin Hi. rewrite map_map.
      rewrite (map_ext _ product_id); [exact (Ht r i Hin Hi) |].
      intros r0. destruct (sql_eq (product_id r0) pid); reflexivity.
  - (* INSERT INTO Transactions *)
    split; [exact Hp |].
    intros r i Hin Hi. apply in_app_or in Hin. destruct Hin as [Hin | [<- | []]].
    + exact (Ht r i Hin Hi).
    + simpl in Hi. subst pid. apply has_product_in. assumption.
Qed.

Lemma keeps_rows_refl (d : db) : keeps_rows d d.
Proof. split; exists []; symmetry; apply app_nil_r. Qed.

Lemma keeps_rows_trans (d0 d1 d2 : db) :
  keeps_rows d0 d1 -> keeps_rows d1 d2 -> keeps_rows d0 d2.
Proof.
  intros [[s1 H1] [p1 G1]] [[s2 H2] [p2 G2]]. split.
  - exists (s1 ++ s2). rewrite H2, H1. symmetry. apply app_assoc.
  - exists (p1 ++ p2). rewrite G2, G1. symmetry. apply app_assoc.
Qed.

Lemma exec_keeps_rows (s : stmt) (d d' : db) : exec s d = inr d' -> keeps_rows d d'.
Proof.
  unfold keeps_rows, product_rows, supplier_rows.
  intros H.
  destruct s; exec_cases H;
    try solve [ split; exists []; rewrite app_nil_r; reflexivity
              | split; exists [];
                destruct (Suppliers d), (Products d); simpl;
                rewrite ?app_nil_r; reflexivity ].
  - (* INSERT INTO Suppliers *)
    split; [eexists; reflexivity |].
    exists []. rewrite app_nil_r. reflexivity.
  - (* INSERT INTO Products *)
    split; [exists []; rewrite app_nil_r; reflexivity |].
    rewrite map_app. eexists; reflexivity.
  - (* UPDATE ... quantity + ? *)
    split; [exists []; rewrite app_nil_r; reflexivity |].
    exists []. rewrite app_nil_r, map_map. apply map_ext.
    intros r. destruct (sql_eq (product_id r) pid); reflexivity.
  - (* UPDATE ... quantity - ? *)
    split; [exists []; rewrite app_nil_r; reflexivity |].
    exists []. rewrite app_nil_r, map_map. apply map_ext.
    intros r. destruct (sql_eq (product_id r) pid); reflexivity.
Qed.

(** X5. Whatever the storage does and whatever is typed at the menu, the
    references of the file stay whole: when every product's supplier and
    every transaction's product has its row, the same holds after table
    creation, after every operation and after every run of the menu. *)
Theorem references_never_dangle (w : world) :
  txn w = None ->
  references_resolve (file w) ->
  references_resolve (file_after create_tables w) /\
  (forall a, references_resolve (file_after (run_action a) w)) /\
  (forall acts, references_resolve (file_after (main_menu acts) w)).
Proof.
  intros Ht Hr. apply (@exec_closed_runs references_resolve w); auto.
  intros s d d'. apply exec_references.
Qed.

Lemma references_never_dangle_witness :
  references_resolve (file_after create_tables (boot sample_db)) /\
  (forall a, references_resolve (file_after (run_action a) (boot sample_db))) /\
  (forall acts, references_resolve (file_after (main_menu acts) (boot sample_db))).
Proof.
  apply (@references_never_dangle (boot sample_db)).
  - reflexivity.
  - split; simpl.
    + intros p s [<- | []] E. injection E as <-. simpl. auto.
    + intros t i [<- | []] E. injection E as <-. simpl. auto.
Defined.

(** X6. The program never deletes or rewrites a supplier or a product:
    under every behaviour of the storage, table creation, every operation
    and every run of the menu leave each supplier row of the file in
    place and unchanged, and each product row in place and unchanged but
    for its quantity; rows are only added after them. *)
Theorem rows_never_removed (w : world) :
  txn w = None ->
  keeps_rows (file w) (file_after create_tables w) /\
  (forall a, keeps_rows (file w) (file_after (run_action a) w)) /\
  (forall acts, keeps_rows (file w) (file_after (main_menu acts) w)).
Proof.
  intros Ht. apply (@exec_closed_runs (keeps_rows (file w)) w); auto.
  - intros s d d' Hd He.
    eapply keeps_rows_trans; [exact Hd | eapply exec_keeps_rows; exact He].
  - apply keeps_rows_refl.
Qed.

Lemma rows_never_removed_witness :
  keeps_rows (file (boot sample_db)) (file_after create_tables (boot sample_db)) /\
  (forall a, keeps_rows (file (boot sample_db))
               (file_after (run_action a) (boot sample_db))) /\
  (forall acts, keeps_rows (file (boot sample_db))
                  (file_after (main_menu acts) (boot sample_db))).
Proof.
  apply (@rows_never_removed (boot sample_db)). reflexivity.
Defined.

(** ** Invariants that rest on the checks made before a write *)

(** Finds a statement among those the checks let through. *)
Ltac issued Hw :=
  simpl in Hw;
  repeat (apply andb_true_iff in Hw; let H := fresh in destruct Hw as [H Hw]);
  assumption.

Section GuardedFrames.
Variable J : db -> option db -> Prop.
Variable G : stmt -> bool.
Hypothesis Hrb : rollback_closed J.
Hypothesis Hc : commit_closed J.
Hypothesis Hs : forall s, G s = true -> stmt_ok J s.

Lemma create_tables_guarded :
  G CreateSuppliers = true -> G CreateProducts = true -> G CreateTransactions = true ->
  preserves J create_tables.
Proof. intros H1 H2 H3. unfold create_tables. frame; apply Hs; assumption. Qed.

Lemma run_action_guarded (a : action) :
  forallb G (writes a) = true -> preserves J (run_action a).
Proof.
  intros Hw.
  destruct a as [n c | | n c q p s | | pid q now | pid q now | t | |]; simpl in *.
  - unfold add_supplier. frame. apply Hs. issued Hw.
  - apply view_suppliers_preserves; auto.
  - unfold add_product. frame;
      try apply view_suppliers_preserves; try apply supplier_exists_preserves; frame.
    all: apply Hs; issued Hw.
  - apply view_products_preserves; auto.
  - unfold stock_in. frame;
      try apply view_products_preserves; try apply get_product_preserves; frame.
    all: apply Hs; issued Hw.
  - unfold stock_out. frame;
      try apply view_products_preserves; try apply get_product_preserves; frame.
    all: apply Hs; issued Hw.
  - apply low_stock_report_preserves; auto.
  - apply transaction_report_preserves; auto.
  - apply preserves_print.
Qed.

Lemma menu_loop_guarded (acts : list action) :
  (forall a, forallb G (writes a) = true) -> preserves J (menu_loop acts).
Proof.
  intros Hw. induction acts as [| a acts IH]; simpl.
  - frame.
  - apply preserves_bind; [apply preserves_print | intros _].
    apply preserves_bind; [apply preserves_print | intros _].
    apply preserves_bind; [apply run_action_guarded, Hw | intros _; exact IH].
Qed.
End GuardedFrames.

(** A property kept by every statement that passes [G] is kept by table
    creation, by every operation and by every run of the menu, when the
    program only issues statements that pass [G]. *)
Lemma guarded_runs (I : db -> Prop) (G : stmt -> bool) (w : world) :
  (forall s d d', G s = true -> I d -> exec s d = inr d' -> I d') ->
  G CreateSuppliers = true -> G CreateProducts = true -> G CreateTransactions = true ->
  (forall a, forallb G (writes a) = true) ->
  txn w = None -> I (file w) ->
  I (file_after create_tables w) /\
  (forall a, I (file_after (run_action a) w)) /\
  (forall acts, I (file_after (main_menu acts) w)).
Proof.
  intros Hex G1 G2 G3 Hw Ht Hi.
  assert (Hh : holds (both I) w).
  { split; [exact Hi |]. rewrite Ht. discriminate. }
  assert (Hs : forall s, G s = true -> stmt_ok (both I) s).
  { intros s Hg. apply both_stmt_ok. intros d d'. apply Hex, Hg. }
  pose proof (@create_tables_guarded (both I) G (@both_rollback_closed _)
                (@both_commit_closed _) Hs G1 G2 G3) as Hct.
  split; [| split].
  - exact (proj1 (Hct w Hh)).
  - intros a.
    exact (proj1 (@run_action_guarded (both I) G (@both_rollback_closed _)
                    (@both_commit_closed _) Hs a (Hw a) w Hh)).
  - intros acts. unfold main_menu.
    assert (Hm : preserves (both I)
                   (create_tables ;;
                    print (Text "===== Inventory Management System =====") ;;
                    menu_loop acts)).
    { apply preserves_bind; [exact Hct | intros _].
      apply preserves_bind; [apply preserves_print | intros _].
      apply (@menu_loop_guarded (both I) G); auto using both_rollback_closed,
        both_commit_closed. }
    exact (proj1 (Hm w Hh)).
Qed.

Lemma or_none_filled (c : string) : absent_or_filled (or_none c) = true.
Proof.
  unfold or_none. destruct (c =? "")%string eqn:E; simpl; [reflexivity |].
  unfold filled. rewrite E. reflexivity.
Qed.

Lemma writes_checked (a : action) : forallb checked (writes a) = true.
Proof.
  destruct a as [n c | | n c [q |] p s | | pid [q |] now | pid [q |] now | t | |];
    simpl; try reflexivity.
  - destruct (n =? "")%string eqn:E; simpl; [reflexivity |].
    unfold filled. rewrite E, or_none_filled. reflexivity.
  - destruct (n =? "")%string eqn:E; simpl; [reflexivity |].
    destruct (q <? 0); simpl; [reflexivity |].
    unfold filled. rewrite E, or_none_filled. reflexivity.
  - destruct (q <=? 0) eqn:E; simpl; [reflexivity |].
    rewrite (Z.ltb_antisym q 0), E. reflexivity.
  - destruct (q <=? 0) eqn:E; simpl; [reflexivity |].
    rewrite (Z.ltb_antisym q 0), E. reflexivity.
Qed.

Lemma exec_checked (s : stmt) (d d' : db) :
  checked s = true -> rows_checked d -> exec s d = inr d' -> rows_checked d'.
Proof.
  unfold rows_checked, product_rows, supplier_rows, trans_rows.
  intros Hc [Hs [Hp Ht]] H.
  destruct s; exec_cases H; simpl in Hc; try (repeat split; assumption).
  - (* CREATE TABLE Suppliers *)
    repeat split; try assumption. destruct (Suppliers d); simpl; auto.
  - (* CREATE TABLE Products *)
    repeat split; try assumption. destruct (Products d); simpl; auto.
  - (* CREATE TABLE Transactions *)
    repeat split; try assumption. destruct (Transactions d); simpl; auto.
  - (* INSERT INTO Suppliers *)
    repeat split; try assumption. apply andb_true_iff in Hc.
    apply Forall_app. split; [exact Hs |]. constructor; [exact Hc | constructor].
  - (* INSERT INTO Products *)
    repeat split; try assumption. apply andb_true_iff in Hc. destruct Hc as [Hn Hcat].
    apply Forall_app. split; [exact Hp |]. constructor; [| constructor].
    simpl. auto.
  - (* UPDATE ... quantity + ? *)
    repeat split; try assumption. apply Forall_map. revert Hp. apply Forall_impl.
    intros r Hr. destruct (sql_eq (product_id r) pid); exact Hr.
  - (* UPDATE ... quantity - ? *)
    repeat split; try assumption. apply Forall_map. revert Hp. apply Forall_impl.
    intros r Hr. destruct (sql_eq (product_id r) pid); exact Hr.
  - (* INSERT INTO Transactions *)
    repeat split; try assumption.
    apply Forall_app. split; [exact Ht |]. constructor; [| constructor].
    simpl. apply Z.ltb_lt. exact Hc.
Qed.

(** X7. What the checks on the prompts turn down never reaches the file:
    under every behaviour of the storage, when the stored suppliers and
    products have names that are not empty, contact and category NULL
    rather than empty, prices that are numbers, and every transaction a
    positive quantity, the same holds after table creation, after every
    operation and after every run of the menu. *)
Theorem stored_rows_checked (w : world) :
  txn w = None ->
  rows_checked (file w) ->
  rows_checked (file_after create_tables w) /\
  (forall a, rows_checked (file_after (run_action a) w)) /\
  (forall acts, rows_checked (file_after (main_menu acts) w)).
Proof.
  intros Ht Hr.
  apply (@guarded_runs rows_checked checked w); auto using writes_checked.
  intros s d d'. apply exec_checked.
Qed.

Lemma stored_rows_checked_witness :
  rows_checked (file_after create_tables (boot sample_db)) /\
  (forall a, rows_checked (file_after (run_action a) (boot sample_db))) /\
  (forall acts, rows_checked (file_after (main_menu acts) (boot sample_db))).
Proof.
  apply (@stored_rows_checked (boot sample_db)).
  - reflexivity.
  - repeat split; simpl; constructor; simpl; auto; lia.
Defined.

(** ** The stock ledger *)

Section Relations.
Variable R : db -> db -> Prop.
Hypothesis R_refl : forall d, R d d.
Hypothesis R_trans : forall d0 d1 d2, R d0 d1 -> R d1 d2 -> R d0 d2.

Lemma relates_print (l : line) : relates R (print l).
Proof. intros w Ht. split; [apply R_refl | exact Ht]. Qed.

Lemma relates_bind (A B : Type) (m : M A) (k : A -> M B) :
  relates R m -> (forall a, relates R (k a)) -> relates R (bind m k).
Proof.
  intros Hm Hk w Ht. apply post_bind.
  eapply post_mono; [exact (Hm w Ht) |].
  intros [a | e |] w' [Hr Ht']; auto.
  eapply post_mono; [exact (Hk a w' Ht') |].
  cbv beta. intros r w'' [Hr' Ht'']. split; [| exact Ht''].
  eapply R_trans; eassumption.
Qed.

Lemma relates_intro (A : Type) (m : M A) :
  (forall d0, preserves (both (R d0)) m) -> closes m -> relates R m.
Proof.
  intros Hp Hc w Ht. unfold post. split.
  - assert (Hw : holds (both (R (file w))) w).
    { split; [apply R_refl |]. rewrite Ht. discriminate. }
    destruct (Hp (file w) w Hw) as [H _]. exact H.
  - exact (Hc w Ht).
Qed.
End Relations.

Lemma net_movement_app (i : Z) (l1 l2 : list trans_row) :
  net_movement i (l1 ++ l2) = net_movement i l1 + net_movement i l2.
Proof.
  unfold net_movement. induction l1 as [| t l1 IH]; simpl; [reflexivity |].
  rewrite IH. lia.
Qed.

Lemma accounted_refl (d : db) : accounted d d.
Proof.
  exists []. split; [symmetry; apply app_nil_r |].
  intros i q0 H. rewrite H. simpl. rewrite Z.add_0_r. reflexivity.
Qed.

Lemma accounted_trans (d0 d1 d2 : db) :
  accounted d0 d1 -> accounted d1 d2 -> accounted d0 d2.
Proof.
  intros [n1 [E1 H1]] [n2 [E2 H2]]. exists (n1 ++ n2). split.
  - rewrite E2, E1. symmetry. apply app_assoc.
  - intros i q0 H. rewrite (H2 i _ (H1 i q0 H)), net_movement_app.
    rewrite Z.add_assoc. reflexivity.
Qed.

Lemma find_app_some (A : Type) (f : A -> bool) (l l' : list A) (x : A) :
  find f l = Some x -> find f (l ++ l') = Some x.
Proof.
  induction l as [| y l IH]; simpl; [discriminate |].
  destruct (f y); auto.
Qed.

Lemma find_map_same_id (f : product_row -> product_row) (x : option Z)
    (l : list product_row) :
  (forall r, product_id (f r) = product_id r) ->
  find (fun r => sql_eq (product_id r) x) (map f l)
  = option_map f (find (fun r => sql_eq (product_id r) x) l).
Proof.
  intros Hf. induction l as [| y l IH]; simpl; [reflexivity |].
  rewrite Hf. destruct (sql_eq (product_id y) x); [reflexivity | exact IH].
Qed.

Lemma exec_neutral_accounted (s : stmt) (d d' : db) :
  neutral s = true -> exec s d = inr d' -> accounted d d'.
Proof.
  intros Hn H. unfold accounted, on_hand, lookup_product, trans_rows, product_rows.
  destruct s; try discriminate; exec_cases H;
    exists []; rewrite app_nil_r;
    try solve [ split; [reflexivity |];
                intros i q0 E; rewrite E; simpl; rewrite Z.add_0_r; reflexivity ].
  - (* CREATE TABLE Products *)
    split; [reflexivity |].
    intros i q0 E. destruct (Products d); simpl in *; [| discriminate].
    rewrite E. rewrite Z.add_0_r. reflexivity.
  - (* CREATE TABLE Transactions *)
    split.
    + destruct (Transactions d); reflexivity.
    + intros i q0 E. rewrite E. simpl. rewrite Z.add_0_r. reflexivity.
  - (* INSERT INTO Products *)
    split; [reflexivity |].
    intros i q0 E.
    destruct (find (fun r => product_id r =? i) (rows t)) as [r |] eqn:Ef;
      [| discriminate].
    rewrite (find_app_some _ _ _ Ef). simpl in *. rewrite E.
    rewrite Z.add_0_r. reflexivity.
Qed.

(** Within its bound a quantity moves by exactly the quantity of the
    movement. *)
Lemma moved_accounted (d : db) (tp : table product_row) (tt : table trans_row)
    (pid : option Z) (k : trans_kind) (qty B : Z) (now : string) :
  Products d = Some tp -> Transactions d = Some tt ->
  quantities_within B d ->
  0 < qty -> fits qty = true ->
  match k with IN => B + qty <= int64_max | OUT => B <= int64_max end ->
  accounted d (moved d tp tt pid k
                 (match k with IN => qty | OUT => - qty end) qty now).
Proof.
  intros HP HT HB Hq Hfit Hk. apply fits_range in Hfit.
  exists [mkTrans (next_rowid trans_id tt) pid k qty now].
  unfold quantities_within in HB. rewrite Forall_forall in HB.
  unfold trans_rows, on_hand, lookup_product, product_rows in *. rewrite HP in *.
  rewrite HT.
  cbn [moved Products Transactions rows insert_row update_quantity].
  split; [reflexivity |].
  intros i q0 E.
  rewrite (@find_map_same_id _ (Some i) (rows tp))
    by (intros r; destruct (sql_eq (product_id r) pid); reflexivity).
  destruct (find (fun r => sql_eq (product_id r) (Some i)) (rows tp)) as [r |] eqn:Ef;
    [| discriminate].
  simpl in E. injection E as E.
  apply find_some in Ef. destruct Ef as [Hin Ei]. simpl in Ei. apply Z.eqb_eq in Ei.
  destruct (HB r Hin) as [z [Ez Hz]]. rewrite E in Ez. injection Ez as <-.
  cbn [net_movement fold_right option_map]. unfold movement_of.
  cbn [trans_product trans_type trans_quantity]. rewrite Ei.
  destruct pid as [j |]; cbn [sql_eq].
  2: { rewrite E, !Z.add_0_r. reflexivity. }
  rewrite (Z.eqb_sym i j). destruct (j =? i).
  2: { rewrite E, !Z.add_0_r. reflexivity. }
  cbn [set_quantity quantity]. rewrite E, Z.add_0_r. f_equal.
  apply sql_add_exact, fits_range. unfold int64_max in *.
  destruct k; lia.
Qed.

Lemma within_mono (B B' : Z) (d : db) :
  B <= B' -> quantities_within B d -> quantities_within B' d.
Proof.
  intros Hle. apply Forall_impl. intros r [z [E Hz]]. exists z. split; [exact E | lia].
Qed.

Lemma within_sound (B : Z) (d : db) :
  B <= int64_max -> pk_unique d -> quantities_within B d -> sound d.
Proof.
  intros Hm Hu HB. split; [exact Hu | split].
  - revert HB. apply Forall_impl. intros r [z [-> Hz]]. simpl. lia.
  - revert HB. apply Forall_impl. intros r [z [-> Hz]]. simpl.
    apply fits_range. unfold int64_max in Hm. lia.
Qed.

(** After a movement the quantities are within the bound the movement
    allows; that an issue leaves no negative quantity is known from the
    check [stock_out] makes. *)
Lemma moved_within (d : db) (tp : table product_row) (tt : table trans_row)
    (pid : option Z) (k : trans_kind) (qty B : Z) (now : string) :
  Products d = Some tp ->
  quantities_within B d ->
  0 < qty -> fits qty = true ->
  match k with IN => B + qty <= int64_max | OUT => B <= int64_max end ->
  quantities_nonneg (moved d tp tt pid k
                       (match k with IN => qty | OUT => - qty end) qty now) ->
  quantities_within (match k with IN => B + qty | OUT => B end)
    (moved d tp tt pid k (match k with IN => qty | OUT => - qty end) qty now).
Proof.
  intros HP HB Hq Hfit Hk Hn. apply fits_range in Hfit.
  unfold quantities_within, quantities_nonneg, product_rows in *. rewrite HP in HB.
  cbn [moved Products rows update_quantity] in *.
  rewrite Forall_map in Hn. rewrite Forall_map.
  rewrite Forall_forall in *. intros r Hr.
  destruct (HB r Hr) as [z [Ez Hz]]. specialize (Hn r Hr).
  destruct (sql_eq (product_id r) pid).
  2: { exists z. split; [exact Ez |]. destruct k; lia. }
  cbn [set_quantity quantity] in *. rewrite Ez in *.
  unfold int64_max in *.
  destruct k.
  - rewrite sql_add_exact in * by (apply fits_range; lia).
    exists (z + qty). split; [reflexivity | lia].
  - rewrite sql_add_exact in * by (apply fits_range; lia).
    simpl in Hn. exists (z + - qty). split; [reflexivity | lia].
Qed.

Lemma exec_within (B : Z) (s : stmt) (d d' : db) :
  keeps_within B s = true -> quantities_within B d -> exec s d = inr d' ->
  quantities_within B d'.
Proof.
  intros Hk HB H. unfold quantities_within, product_rows in *.
  destruct s; try discriminate; exec_cases H; auto.
  - (* CREATE TABLE Products *)
    destruct (Products d); simpl; [exact HB | constructor].
  - (* INSERT INTO Products *)
    apply Forall_app. split; [exact HB |].
    constructor; [| constructor]. exists q. split; [reflexivity |].
    simpl in Hk. apply andb_true_iff in Hk. destruct Hk as [H1 H2]. guards. lia.
Qed.

Lemma capacity_ge (acts : list action) (B : Z) : B <= capacity acts B.
Proof.
  revert B. induction acts as [| a acts IH]; intros B; simpl; [lia |].
  destruct a as [| | ? ? [q |] ? ? | | ? [q |] ? | | | |];
    try apply IH;
    (eapply Z.le_trans; [| apply IH]); lia.
Qed.

Lemma capacity_cons (a : action) (acts : list action) (B : Z) :
  capacity (a :: acts) B = capacity acts (capacity [a] B).
Proof.
  destruct a as [| | ? ? [q |] ? ? | | ? [q |] ? | | | |]; reflexivity.
Qed.

Lemma update_fits (qty : Z) (pid : option Z) (d d1 : db) :
  exec (UpdateQuantityAdd qty pid) d = inr d1 \/
  exec (UpdateQuantitySub qty pid) d = inr d1 ->
  fits qty = true.
Proof.
  simpl. destruct (Products d); [| intros [H | H]; discriminate].
  destruct (fits qty); [reflexivity |].
  simpl. intros [H | H]; discriminate.
Qed.

Lemma neutral_stmt_ok (d0 : db) (s : stmt) :
  neutral s = true -> stmt_ok (both (accounted d0)) s.
Proof.
  intros Hn. apply both_stmt_ok. intros d d' Hd He.
  eapply accounted_trans; [exact Hd | eapply exec_neutral_accounted; eassumption].
Qed.

(** An operation that writes neither a quantity nor a transaction. *)
Lemma guarded_action_accounted (a : action) :
  forallb neutral (writes a) = true -> relates accounted (run_action a).
Proof.
  intros Hw. apply (@relates_intro accounted accounted_refl);
    [| apply run_action_closes].
  intros d0. apply (@run_action_guarded (both (accounted d0)) neutral).
  - apply both_rollback_closed.
  - apply both_commit_closed.
  - apply neutral_stmt_ok.
  - exact Hw.
Qed.

Lemma guarded_action_within (a : action) (B : Z) (w : world) :
  forallb (keeps_within B) (writes a) = true ->
  txn w = None -> quantities_within B (file w) ->
  quantities_within B (file_after (run_action a) w).
Proof.
  intros Hw Ht HB.
  assert (Hh : holds (both (quantities_within B)) w).
  { split; [exact HB |]. rewrite Ht. discriminate. }
  assert (Hs : forall s, keeps_within B s = true ->
                         stmt_ok (both (quantities_within B)) s).
  { intros s Hg. apply both_stmt_ok. intros d d'. apply exec_within, Hg. }
  exact (proj1 (@run_action_guarded (both (quantities_within B)) (keeps_within B)
                  (@both_rollback_closed _) (@both_commit_closed _) Hs a Hw w Hh)).
Qed.

(** One turn of the menu on quantities within [B]: the transaction rows
    it adds account for the change of every quantity, and the quantities
    end within the bound the turn allows. *)
Lemma run_action_ledger (a : action) (B : Z) (w : world) :
  txn w = None -> pk_unique (file w) -> quantities_within B (file w) ->
  capacity [a] B <= int64_max ->
  accounted (file w) (file_after (run_action a) w) /\
  quantities_within (capacity [a] B) (file_after (run_action a) w).
Proof.
  intros Ht Hu HB Hm.
  pose proof (capacity_ge [a] B) as Hge.
  assert (Hs : sound (file w)) by (apply (@within_sound B); auto; lia).
  pose proof (run_action_keeps_sound a w Ht Hs) as Hk.
  unfold post in Hk. destruct Hk as [[_ [Hnn _]] _].
  assert (Hquiet : forallb neutral (writes a) = true ->
                   forallb (keeps_within (capacity [a] B)) (writes a) = true ->
                   accounted (file w) (file_after (run_action a) w) /\
                   quantities_within (capacity [a] B) (file_after (run_action a) w)).
  { intros H1 H2. split.
    - exact (proj1 (guarded_action_accounted a H1 w Ht)).
    - apply guarded_action_within; [exact H2 | exact Ht |].
      apply (within_mono Hge HB). }
  destruct a as [n c | | n c [q |] p s | | pid [q |] now | pid [q |] now | t | |];
    try (apply Hquiet; simpl;
         repeat match goal with
                | |- context [if ?x then _ else _] => destruct x eqn:?
                end; simpl; try reflexivity;
         guards; rewrite andb_true_r;
         apply andb_true_iff; split; apply Z.leb_le; lia).
  - (* stock_in *)
    cbn [run_action] in *. unfold file_after in *.
    pose proof (@stock_in_atomic pid (Some q) now w Ht) as Ha. unfold post in Ha.
    destruct Ha as [E | [_ [qty [Eq [Hq [d1 [E1 E2]]]]]]].
    { rewrite E. split; [apply accounted_refl | apply (within_mono Hge HB)]. }
    injection Eq as <-.
    pose proof (@update_fits q pid (file w) d1 (or_introl E1)) as Hfit.
    destruct (@applied_moved (file w) d1 _ pid IN q q (UpdateQuantityAdd q pid)
                (strftime now) (fun d => eq_refl) E1 E2) as [tp [tt [EP [ET Ed]]]].
    cbn [capacity] in *. rewrite Z.max_r in * by lia.
    rewrite Ed in *. split.
    + exact (@moved_accounted (file w) tp tt pid IN q B (strftime now)
               EP ET HB Hq Hfit Hm).
    + exact (@moved_within (file w) tp tt pid IN q B (strftime now)
               EP HB Hq Hfit Hm Hnn).
  - (* stock_out *)
    cbn [run_action] in *. unfold file_after in *.
    pose proof (@stock_out_atomic pid (Some q) now w Ht) as Ha. unfold post in Ha.
    destruct Ha as [E | [_ [qty [Eq [Hq [d1 [E1 E2]]]]]]].
    { rewrite E. split; [apply accounted_refl | apply (within_mono Hge HB)]. }
    injection Eq as <-.
    pose proof (@update_fits q pid (file w) d1 (or_intror E1)) as Hfit.
    destruct (@applied_moved (file w) d1 _ pid OUT (- q) q (UpdateQuantitySub q pid)
                (strftime now) (fun d => eq_refl) E1 E2) as [tp [tt [EP [ET Ed]]]].
    cbn [capacity] in *.
    rewrite Ed in *. split.
    + exact (@moved_accounted (file w) tp tt pid OUT q B (strftime now)
               EP ET HB Hq Hfit Hm).
    + exact (@moved_within (file w) tp tt pid OUT q B (strftime now)
               EP HB Hq Hfit Hm Hnn).
Qed.

Lemma menu_loop_ledger (acts : list action) (B : Z) (w : world) :
  txn w = None -> pk_unique (file w) -> quantities_within B (file w) ->
  capacity acts B <= int64_max ->
  post (menu_loop acts) w
       (fun _ w' => accounted (file w) (file w') /\
                    quantities_within (capacity acts B) (file w')).
Proof.
  revert B w. induction acts as [| a acts IH]; intros B w Ht Hu HB Hm.
  - simpl. repeat step. split; [apply accounted_refl | exact HB].
  - rewrite capacity_cons in *.
    pose proof (capacity_ge acts (capacity [a] B)) as Hge.
    assert (Hma : capacity [a] B <= int64_max) by lia.
    assert (Hs : sound (file w)).
    { apply (@within_sound B); auto. pose proof (capacity_ge [a] B). lia. }
    cbn [menu_loop]. destruct w as [f t fl lg c]; cbn [file txn] in *.
    repeat step.
    match goal with
    | |- post (run_action a) ?w1 _ =>
        destruct (@run_action_ledger a B w1 Ht Hu HB Hma) as [Hacc Hwit];
        pose proof (run_action_keeps_sound a w1 Ht Hs) as Hk
    end.
    unfold post, file_after in *. cbn [file txn] in *.
    destruct (run_action a _) as [r w2]. cbn [fst snd] in *.
    destruct Hk as [[Hu2 _] Ht2].
    destruct r as [[] | e |];
      try (split; [exact Hacc | exact (within_mono Hge Hwit)]).
    specialize (IH (capacity [a] B) w2 Ht2 Hu2 Hwit Hm).
    destruct IH as [Hacc2 Hwit2].
    split; [exact (accounted_trans Hacc Hacc2) | exact Hwit2].
Qed.

Lemma create_tables_ledger (B : Z) (w : world) :
  txn w = None -> quantities_within B (file w) ->
  accounted (file w) (file_after create_tables w) /\
  quantities_within B (file_after create_tables w).
Proof.
  intros Ht HB. split.
  - assert (Hr : relates accounted create_tables).
    { apply (@relates_intro accounted accounted_refl); [| apply create_tables_closes].
      intros d0. apply (@create_tables_guarded (both (accounted d0)) neutral);
        try reflexivity; try apply neutral_stmt_ok.
      apply both_rollback_closed. apply both_commit_closed. }
    exact (proj1 (Hr w Ht)).
  - assert (Hh : holds (both (quantities_within B)) w).
    { split; [exact HB |]. rewrite Ht. discriminate. }
    assert (Hs : forall s, keeps_within B s = true ->
                           stmt_ok (both (quantities_within B)) s).
    { intros s Hg. apply both_stmt_ok. intros d d'. apply exec_within, Hg. }
    exact (proj1 (@create_tables_guarded (both (quantities_within B)) (keeps_within B)
                    (@both_rollback_closed _) (@both_commit_closed _) Hs
                    eq_refl eq_refl eq_refl w Hh)).
Qed.

Lemma main_menu_ledger (acts : list action) (B : Z) (w : world) :
  txn w = None -> pk_unique (file w) -> quantities_within B (file w) ->
  capacity acts B <= int64_max ->
  accounted (file w) (file_after (main_menu acts) w) /\
  quantities_within (capacity acts B) (file_after (main_menu acts) w).
Proof.
  intros Ht Hu HB Hm.
  pose proof (capacity_ge acts B) as Hge.
  assert (Hs : sound (file w)) by (apply (@within_sound B); auto; lia).
  destruct (@create_tables_ledger B w Ht HB) as [Hacc Hwit].
  pose proof (create_tables_keeps_sound w Ht Hs) as Hk.
  change (post (main_menu acts) w
            (fun _ w' => accounted (file w) (file w') /\
                         quantities_within (capacity acts B) (file w'))).
  unfold main_menu. apply post_bind.
  unfold post, file_after in *.
  destruct (create_tables w) as [r w1]. cbn [fst snd] in *.
  destruct Hk as [[Hu1 _] Ht1].
  destruct r as [[] | e |];
    try (split; [exact Hacc | exact (within_mono Hge Hwit)]).
  destruct w1 as [f1 t1 fl1 lg1 c1]. cbn [file txn] in *.
  change (post (print (Text "===== Inventory Management System =====") ;;
                menu_loop acts)
               {| file := f1; txn := t1; faults := fl1; sql_log := lg1; console := c1 |}
               (fun _ w' => accounted (file w) (file w') /\
                            quantities_within (capacity acts B) (file w'))).
  repeat step.
  eapply post_mono; [apply (@menu_loop_ledger acts B); assumption |].
  cbv beta. cbn [file]. intros _ w' [Hacc2 Hwit2].
  split; [exact (accounted_trans Hacc Hacc2) | exact Hwit2].
Qed.




(** X8. The transaction rows account for the stock as long as the
    quantities stay within 64 bits: under every behaviour of the storage,
    from INTEGER quantities of at most [B], after any operation and after
    any run of the menu in which the quantities typed can bring none
    beyond [2^63 - 1], every product that was in the file is still there,
    and its quantity has changed by exactly the quantities of the [IN]
    rows minus those of the [OUT] rows that were added for it. *)
Theorem stock_ledger_balanced (w : world) (B : Z) :
  txn w = None ->
  pk_unique (file w) ->
  quantities_within B (file w) ->
  (forall a, capacity [a] B <= int64_max ->
     accounted (file w) (file_after (run_action a) w)) /\
  (forall acts, capacity acts B <= int64_max ->
     accounted (file w) (file_after (main_menu acts) w)).
Proof.
  intros Ht Hu HB. split.
  - intros a Hm. exact (proj1 (@run_action_ledger a B w Ht Hu HB Hm)).
  - intros acts Hm. exact (proj1 (@main_menu_ledger acts B w Ht Hu HB Hm)).
Qed.

Lemma stock_ledger_balanced_witness :
  (forall a, capacity [a] 10 <= int64_max ->
     accounted (file (boot sample_db)) (file_after (run_action a) (boot sample_db))) /\
  (forall acts, capacity acts 10 <= int64_max ->
     accounted (file (boot sample_db)) (file_after (main_menu acts) (boot sample_db))).
Proof.
  apply (@stock_ledger_balanced (boot sample_db) 10).
  - reflexivity.
  - unfold pk_unique; simpl. constructor; [simpl; tauto | constructor].
  - unfold quantities_within; simpl.
    constructor; [exists 10; split; [reflexivity | lia] | constructor].
Defined.

(** ** Errors that are caught and errors that are not *)

(** [conn = get_connection()] followed by [try: ... except sqlite3.Error:
    print(...) finally: conn.close()] lets a [sqlite3.Error] out exactly
    when the connection cannot be opened. *)
Lemma scoped_raises (A : Type) (body : M A) (h : exn -> M A) (w : world) :
  (forall e w1, exists a w2, h e w1 = (Ret a, w2)) ->
  raised (get_connection ;; try_finally (try_except body h) close) w <-> refused w.
Proof.
  intros Hh.
  assert (Hin : forall w0 e, sqlite_error e = true ->
                  fst (try_finally (try_except body h) close w0) <> Raise e).
  { intros w0 e He. unfold try_finally, try_except, close.
    destruct (body w0) as [[a | e' |] w1]; simpl; try discriminate.
    destruct (sqlite_error e') eqn:E'.
    - destruct (Hh e' w1) as [a [w2 E]]. rewrite E. simpl. discriminate.
    - simpl. intros H. injection H as <-. congruence. }
  unfold raised, refused, bind, get_connection, db_call, ret.
  destruct (faults w) as [| [] fl]; simpl.
  - split; [| discriminate]. intros [e [He H]]. exfalso. exact (Hin _ e He H).
  - split; [| discriminate]. intros [e [He H]]. exfalso. exact (Hin _ e He H).
  - split; [reflexivity |]. intros _. exists OperationalError. split; reflexivity.
  - split; [intros [e [_ He]]; discriminate | discriminate].
Qed.

Lemma reported_raises (body : M unit) (op : string) (w : world) :
  raised (get_connection ;;
          try_finally (try_except body (fun e => print (DbError op e))) close) w
  <-> refused w.
Proof.
  apply scoped_raises. intros e w1. eexists. eexists. reflexivity.
Qed.

(** X9. Every [sqlite3.Error] raised inside the [try] of an operation
    with a single connection is caught: table creation, the two listings
    and the transaction report end in a [sqlite3.Error] exactly when the
    storage refuses to open the connection, and [add_supplier] and the
    low-stock report only then.  (The [OverflowError] of a threshold
    outside 64 bits is not a [sqlite3.Error] and is not caught.) *)
Theorem errors_caught (w : world) :
  (raised create_tables w <-> refused w) /\
  (raised view_suppliers w <-> refused w) /\
  (raised view_products w <-> refused w) /\
  (raised transaction_report w <-> refused w) /\
  (forall n c, raised (add_supplier n c) w -> refused w) /\
  (forall t, raised (low_stock_report t) w -> refused w).
Proof.
  split; [apply reported_raises |].
  split; [apply reported_raises |].
  split; [apply reported_raises |].
  split; [| split].
  - unfold raised, transaction_report, bind at 1, print. simpl.
    match goal with
    | |- (exists e, _ /\ fst (_ ?w') = _) <-> _ => change (refused w) with (refused w')
    end.
    apply reported_raises.
  - intros n c H. unfold raised, add_supplier, bind at 1, print in H. simpl in H.
    destruct (n =? "")%string; [destruct H as [e [_ H]]; discriminate |].
    apply reported_raises in H. exact H.
  - intros t H. unfold raised, low_stock_report, bind at 1, print in H. simpl in H.
    destruct t as [t |]; [| destruct H as [e [_ H]]; discriminate].
    destruct (t <? 0); [destruct H as [e [_ H]]; discriminate |].
    apply reported_raises in H. exact H.
Qed.

(** [view_products] returns whenever the connection opens and the
    process survives its query; what goes wrong inside is reported. *)
Lemma view_products_returns (w : world) :
  txn w = None ->
  hd Healthy (faults w) = Healthy ->
  hd Healthy (tl (faults w)) <> Crash ->
  post view_products w
       (fun r w' => r = Ret tt /\ file w' = file w /\ txn w' = None /\
                    faults w' = tl (tl (faults w))).
Proof.
  intros Ht H0 H1. destruct w as [f t fl lg c]; simpl in *; subst t.
  unfold view_products.
  repeat fstep; try congruence; try solve [repeat split].
  destruct (select_products_join f) as [e | [| r rws]] eqn:E; repeat step; repeat split.
Qed.

Lemma get_product_fails (pid : option Z) (w : world) :
  txn w = None ->
  (exists rest, faults w = Healthy :: Fails :: rest) \/
  (faults w = [] /\ Products (file w) = None) ->
  post (get_product pid) w
       (fun r w' => r = Raise OperationalError /\ file w' = file w).
Proof.
  intros Ht H. destruct w as [f t fl lg c]; simpl in *; subst t.
  unfold get_product.
  destruct H as [[rest ->] | [-> HP]].
  - repeat fstep; try congruence. split; reflexivity.
  - repeat fstep; try congruence.
    unfold select_product. rewrite HP. repeat step. split; reflexivity.
Qed.

Lemma lookup_fails_escapes (w : world) (A : Type) (k : option product_row -> M A) :
  txn w = None -> lookup_fails w ->
  forall pid,
    post (view_products ;; product <- get_product pid ;; k product) w
         (fun r w' => r = Raise OperationalError /\ file w' = file w).
Proof.
  intros Ht Hl pid. step.
  eapply post_mono.
  { apply view_products_returns; [exact Ht | |];
      destruct Hl as [[rest ->] | [-> _]]; simpl; congruence. }
  cbv beta. intros r w1 [-> [Hf [Ht1 Hfl]]]. step.
  eapply post_mono.
  { apply (@get_product_fails pid w1 Ht1).
    rewrite Hfl, Hf. destruct Hl as [[rest ->] | [-> HP]]; simpl; eauto. }
  cbv beta. intros r w2 [-> Hf2]. split; [reflexivity | congruence].
Qed.

(** X10. An error of the product lookup of a stock movement is not
    caught: when the storage fails at the query of [get_product], or the
    [Products] table is missing, [stock_in] and [stock_out] end in the
    [sqlite3.Error] instead of reporting it, the file stays as it was,
    and the menu loop ends with the same exception without running the
    choices that follow. *)
Theorem lookup_error_escapes (w : world) (pid qty_in : option Z) (now : datetime) :
  txn w = None ->
  lookup_fails w ->
  fst (stock_in pid qty_in now w) = Raise OperationalError /\
  fst (stock_out pid qty_in now w) = Raise OperationalError /\
  file_after (stock_in pid qty_in now) w = file w /\
  file_after (stock_out pid qty_in now) w = file w /\
  (forall acts,
     fst (menu_loop (StockIn pid qty_in now :: acts) w) = Raise OperationalError /\
     fst (menu_loop (StockOut pid qty_in now :: acts) w) = Raise OperationalError).
Proof.
  intros Ht Hl.
  assert (Hin : forall w0, txn w0 = None -> lookup_fails w0 ->
                  post (stock_in pid qty_in now) w0
                       (fun r w' => r = Raise OperationalError /\ file w' = file w0)).
  { intros w0 Ht0 Hl0. unfold stock_in. step. step.
    eapply post_mono; [apply lookup_fails_escapes; [exact Ht0 | exact Hl0] |].
    cbv beta. intros r w' [-> Hf]. split; [reflexivity | exact Hf]. }
  assert (Hout : forall w0, txn w0 = None -> lookup_fails w0 ->
                   post (stock_out pid qty_in now) w0
                        (fun r w' => r = Raise OperationalError /\ file w' = file w0)).
  { intros w0 Ht0 Hl0. unfold stock_out. step. step.
    eapply post_mono; [apply lookup_fails_escapes; [exact Ht0 | exact Hl0] |].
    cbv beta. intros r w' [-> Hf]. split; [reflexivity | exact Hf]. }
  destruct (Hin w Ht Hl) as [Hi1 Hi2]. destruct (Hout w Ht Hl) as [Ho1 Ho2].
  unfold file_after. repeat split; auto.
  - change (post (menu_loop (StockIn pid qty_in now :: acts)) w
              (fun r _ => r = Raise OperationalError)).
    simpl. step. step. step. step. step.
    eapply post_mono; [apply Hin; [exact Ht | exact Hl] |].
    cbv beta. intros r w' [-> _]. reflexivity.
  - change (post (menu_loop (StockOut pid qty_in now :: acts)) w
              (fun r _ => r = Raise OperationalError)).
    simpl. step. step. step. step. step.
    eapply post_mono; [apply Hout; [exact Ht | exact Hl] |].
    cbv beta. intros r w' [-> _]. reflexivity.
Qed.

Lemma lookup_error_escapes_witness :
  fst (stock_in (Some 1) (Some 5) (mkDatetime 2024 1 2 10 0 0)
         (fails_at_lookup sample_db)) = Raise OperationalError /\
  fst (stock_out (Some 1) (Some 5) (mkDatetime 2024 1 2 10 0 0)
         (fails_at_lookup sample_db)) = Raise OperationalError /\
  file_after (stock_in (Some 1) (Some 5) (mkDatetime 2024 1 2 10 0 0))
    (fails_at_lookup sample_db) = file (fails_at_lookup sample_db) /\
  file_after (stock_out (Some 1) (Some 5) (mkDatetime 2024 1 2 10 0 0))
    (fails_at_lookup sample_db) = file (fails_at_lookup sample_db) /\
  (forall acts,
     fst (menu_loop (StockIn (Some 1) (Some 5) (mkDatetime 2024 1 2 10 0 0) :: acts)
            (fails_at_lookup sample_db)) = Raise OperationalError /\
     fst (menu_loop (StockOut (Some 1) (Some 5) (mkDatetime 2024 1 2 10 0 0) :: acts)
            (fails_at_lookup sample_db)) = Raise OperationalError).
Proof.
  apply (@lookup_error_escapes (fails_at_lookup sample_db)).
  - reflexivity.
  - left. exists []. reflexivity.
Defined.

(** ** The two lookups *)

(** X11. [supplier_exists] answers [True] exactly when the file has a
    supplier row with the id asked for (never for an empty answer), it
    leaves the file as it was whatever the storage does, and, when the
    storage works and the [Suppliers] table is there, it answers for
    every id within 64 bits and ends in [OverflowError] for any other. *)
Theorem supplier_exists_correct (w : world) (sid : option Z) :
  txn w = None ->
  file_after (supplier_exists sid) w = file w /\
  (forall b, fst (supplier_exists sid w) = Ret b ->
     (b = true <->
      exists r, In r (supplier_rows (file w)) /\ sid = Some (supplier_id r))) /\
  (faults w = [] -> Suppliers (file w) <> None ->
   if fits_opt sid
   then exists b, fst (supplier_exists sid w) = Ret b
   else fst (supplier_exists sid w) = Raise OverflowError).
Proof.
  intros Ht. destruct sid as [s |].
  2: { simpl. unfold file_after. simpl. split; [reflexivity | split].
       - intros b E. injection E as <-. split; [discriminate |].
         intros [r [_ E]]. discriminate.
       - intros _ _. exists false. reflexivity. }
  pose proof (@supplier_exists_post (fun _ => true) s w eq_refl Ht) as H.
  unfold post in H. destruct H as [Hf [_ [_ [_ Hr]]]].
  unfold file_after. split; [exact Hf | split].
  - intros b E. rewrite E in Hr. destruct Hr as [_ [_ [ts [Ets ->]]]].
    unfold supplier_rows. rewrite Ets. unfold has_supplier. split.
    + intros H. apply existsb_exists in H. destruct H as [r [Hin Hs]].
      apply Z.eqb_eq in Hs. exists r. split; [exact Hin | congruence].
    + intros [r [Hin Hs]]. apply existsb_exists. exists r.
      split; [exact Hin |]. injection Hs as ->. apply Z.eqb_refl.
  - intros Hfl HS. cbn [fits_opt].
    destruct (fst (supplier_exists (Some s) w)) as [b | e |].
    + destruct Hr as [_ [-> _]]. exists b. reflexivity.
    + destruct Hr as [Hr | [Hr | [-> ->]]]; [contradiction | contradiction | reflexivity].
    + contradiction.
Qed.

Lemma supplier_exists_correct_witness :
  file_after (supplier_exists (Some 1)) (boot sample_db) = file (boot sample_db) /\
  (forall b, fst (supplier_exists (Some 1) (boot sample_db)) = Ret b ->
     (b = true <->
      exists r, In r (supplier_rows (file (boot sample_db))) /\
                Some 1 = Some (supplier_id r))) /\
  (faults (boot sample_db) = [] -> Suppliers (file (boot sample_db)) <> None ->
   if fits_opt (Some 1)
   then exists b, fst (supplier_exists (Some 1) (boot sample_db)) = Ret b
   else fst (supplier_exists (Some 1) (boot sample_db)) = Raise OverflowError).
Proof.
  apply (@supplier_exists_correct (boot sample_db) (Some 1)). reflexivity.
Defined.

(** X12. [get_product] returns a row only if it is a product row of the
    file with the id asked for, and [None] only if the file has no such
    row; it leaves the file as it was whatever the storage does, and on a
    storage that works, with the [Products] table there, it returns the
    first row with that id when the id is within 64 bits and ends in
    [OverflowError] when it is not. *)
Theorem get_product_correct (w : world) (pid : option Z) :
  txn w = None ->
  file_after (get_product pid) w = file w /\
  (forall r, fst (get_product pid w) = Ret (Some r) ->
     In r (product_rows (file w)) /\ pid = Some (product_id r)) /\
  (fst (get_product pid w) = Ret None ->
   forall r, In r (product_rows (file w)) -> pid <> Some (product_id r)) /\
  (faults w = [] -> Products (file w) <> None ->
   fst (get_product pid w)
   = if fits_opt pid then Ret (lookup_product pid (file w)) else Raise OverflowError).
Proof.
  intros Ht.
  pose proof (@get_product_post pid w Ht) as H.
  unfold post in H. destruct H as [Hf [_ [_ Hr]]].
  assert (Hsel : forall p, select_product pid (file w) = inr p ->
                           p = lookup_product pid (file w) /\ fits_opt pid = true).
  { unfold select_product, lookup_product, product_rows. intros p E.
    destruct (Products (file w)); [| discriminate].
    destruct (fits_opt pid); simpl in E; [| discriminate]. split; congruence. }
  unfold file_after. split; [exact Hf | split; [| split]].
  - intros r E. rewrite E in Hr. destruct Hr as [Hr _].
    apply Hsel in Hr. destruct Hr as [Hr _]. symmetry in Hr. apply find_some in Hr.
    destruct Hr as [Hin Hs]. split; [exact Hin |].
    destruct pid as [i |]; simpl in Hs; [| discriminate].
    apply Z.eqb_eq in Hs. congruence.
  - intros E r Hin Hp. rewrite E in Hr. destruct Hr as [Hr _].
    apply Hsel in Hr. destruct Hr as [Hr _]. symmetry in Hr.
    pose proof (find_none _ _ Hr r Hin) as Hn. simpl in Hn.
    rewrite Hp in Hn. simpl in Hn. rewrite Z.eqb_refl in Hn. discriminate.
  - intros Hfl HP. destruct (fst (get_product pid w)) as [p | e |].
    + destruct Hr as [Hr _]. apply Hsel in Hr. destruct Hr as [-> ->]. reflexivity.
    + destruct Hr as [Hr | Hr]; [contradiction |].
      unfold select_product in Hr. destruct (Products (file w)); [| congruence].
      destruct (fits_opt pid); [discriminate |]. simpl in Hr. congruence.
    + contradiction.
Qed.

Lemma get_product_correct_witness :
  file_after (get_product (Some 1)) (boot sample_db) = file (boot sample_db) /\
  (forall r, fst (get_product (Some 1) (boot sample_db)) = Ret (Some r) ->
     In r (product_rows (file (boot sample_db))) /\ Some 1 = Some (product_id r)) /\
  (fst (get_product (Some 1) (boot sample_db)) = Ret None ->
   forall r, In r (product_rows (file (boot sample_db))) ->
             Some 1 <> Some (product_id r)) /\
  (faults (boot sample_db) = [] -> Products (file (boot sample_db)) <> None ->
   fst (get_product (Some 1) (boot sample_db))
   = if fits_opt (Some 1)
     then Ret (lookup_product (Some 1) (file (boot sample_db)))
     else Raise OverflowError).
Proof.
  apply (@get_product_correct (boot sample_db) (Some 1)). reflexivity.
Defined.

(** ** Outcomes on a storage that works, from any state of the console *)








(** ** Adding a supplier *)





(** ** Adding a product that names a supplier *)



(** ** The listings *)

Lemma supplier_lines_map (l : list supplier_row) :
  supplier_lines (map SupplierLine l) = l.
Proof. induction l as [| x l IH]; simpl; [| rewrite IH]; reflexivity. Qed.

Lemma product_lines_map (l : list (product_row * option supplier_row)) :
  product_lines (map (fun r => ProductLine (fst r) (snd r)) l) = l.
Proof.
  induction l as [| [p s] l IH]; simpl; [| rewrite IH]; reflexivity.
Qed.

Lemma view_suppliers_output (d : db) :
  post view_suppliers (boot d)
       (fun _ w' =>
          supplier_lines (console w')
          = match select_suppliers d with
            | inr rws => rws
            | inl _ => []
            end /\
          (select_suppliers d = inr [] -> console w' = [Text "No suppliers found."])).
Proof.
  unfold boot, view_suppliers.
  repeat fstep; try congruence.
  destruct (select_suppliers d) as [e | [| r rws]] eqn:Es; repeat step;
    (split; [| intros E; first [reflexivity | discriminate E]]);
    try reflexivity.
  unfold supplier_lines. simpl. f_equal. apply supplier_lines_map.
Qed.

Lemma view_products_output (d : db) :
  post view_products (boot d)
       (fun _ w' =>
          product_lines (console w')
          = match select_products_join d with
            | inr rws => rws
            | inl _ => []
            end).
Proof.
  unfold boot, view_products.
  repeat fstep; try congruence.
  destruct (select_products_join d) as [e | [| r rws]] eqn:E; repeat step;
    try reflexivity.
  destruct r as [p s]. unfold product_lines. simpl. f_equal. apply product_lines_map.
Qed.

Lemma order_by_id_sorted (R : Type) (key : R -> Z) (l : list R) :
  StronglySorted (fun a b => key a <= key b)
    (order_by (fun a b => key a <=? key b) l).
Proof.
  eapply StronglySorted_weaken; [| apply order_by_sorted].
  - intros a b H. apply Z.leb_le. exact H.
  - intros x y H. apply Z.leb_le. apply Z.leb_gt in H. lia.
  - intros x y z H1 H2. apply Z.leb_le. apply Z.leb_le in H1, H2. lia.
Qed.

(** X16. On a storage that works, [view_suppliers] prints every supplier
    row of the file, each once, in ascending order of id, and the line
    [No suppliers found.] alone when the table is empty; whatever the
    storage does, it leaves the file as it was. *)
Theorem view_suppliers_correct (d : db) :
  Permutation (supplier_lines (console_after view_suppliers (boot d)))
              (supplier_rows d) /\
  StronglySorted (fun a b => supplier_id a <= supplier_id b)
    (supplier_lines (console_after view_suppliers (boot d))) /\
  (Suppliers d <> None -> supplier_rows d = [] ->
   console_after view_suppliers (boot d) = [Text "No suppliers found."]) /\
  (forall w, txn w = None -> file_after view_suppliers w = file w).
Proof.
  pose proof (view_suppliers_output d) as H. unfold post in H.
  destruct H as [Hl He]. unfold console_after. rewrite Hl.
  unfold select_suppliers, supplier_rows in *.
  split; [| split; [| split]].
  - destruct (Suppliers d) as [t |]; [| reflexivity]. apply order_by_perm.
  - destruct (Suppliers d) as [t |]; [| constructor]. apply order_by_id_sorted.
  - intros HS Hr. apply He.
    destruct (Suppliers d) as [t |]; [| congruence]. rewrite Hr. reflexivity.
  - intros w Hw. apply untouched_file; [| exact Hw].
    apply view_suppliers_preserves, untouched_rollback_closed.
Qed.

(** X17. On a storage that works, with the [Suppliers] table there,
    [view_products] prints every product row of the file, each once, in
    ascending order of id, each line formatted from the product row and
    the supplier row the product names, or none when it names none; when
    no stored supplier has an empty name, the [Supplier] column shows the
    name and id of exactly that supplier, and [-] only where the product
    names no supplier that has a row.  Whatever the storage does, the
    file stays as it was. *)
Theorem view_products_correct (d : db) :
  Suppliers d <> None ->
  Permutation (map fst (product_lines (console_after view_products (boot d))))
              (product_rows d) /\
  StronglySorted (fun a b => product_id a <= product_id b)
    (map fst (product_lines (console_after view_products (boot d)))) /\
  Forall (fun l => snd l = supplier_of d (fst l))
    (product_lines (console_after view_products (boot d))) /\
  (Forall (fun s => filled (supplier_name s) = true) (supplier_rows d) ->
   Forall (fun l => supplier_column (snd l)
                    = option_map (fun r => (supplier_name r, supplier_id r))
                        (supplier_of d (fst l)))
     (product_lines (console_after view_products (boot d)))) /\
  (forall w, txn w = None -> file_after view_products w = file w).
Proof.
  intros HS.
  pose proof (view_products_output d) as H. unfold post in H.
  unfold console_after. rewrite H.
  unfold select_products_join, product_rows, supplier_of, supplier_rows.
  destruct (Suppliers d) as [ts |]; [clear HS | congruence].
  split; [| split; [| split; [| split]]].
  - destruct (Products d) as [t |]; [| reflexivity].
    rewrite map_map. simpl. rewrite map_id. apply order_by_perm.
  - destruct (Products d) as [t |]; [| constructor].
    rewrite map_map. simpl. rewrite map_id. apply order_by_id_sorted.
  - destruct (Products d) as [t |]; [| constructor].
    apply Forall_map. apply Forall_forall. intros p _. reflexivity.
  - intros Hn. destruct (Products d) as [t |]; [| constructor].
    apply Forall_map. apply Forall_forall. intros p _. cbn [fst snd].
    destruct (find (fun s => sql_eq (supplier_id s) (product_supplier p)) (rows ts))
      as [r |] eqn:Ef; [| reflexivity].
    apply find_some in Ef. destruct Ef as [Hin _].
    rewrite Forall_forall in Hn. specialize (Hn r Hin).
    unfold filled in Hn. apply negb_true_iff in Hn.
    simpl. rewrite Hn. reflexivity.
  - intros w Hw. apply untouched_file; [| exact Hw].
    apply view_products_preserves, untouched_rollback_closed.
Qed.

Lemma view_products_correct_witness :
  Permutation (map fst (product_lines (console_after view_products (boot sample_db))))
              (product_rows sample_db) /\
  StronglySorted (fun a b => product_id a <= product_id b)
    (map fst (product_lines (console_after view_products (boot sample_db)))) /\
  Forall (fun l => snd l = supplier_of sample_db (fst l))
    (product_lines (console_after view_products (boot sample_db))) /\
  (Forall (fun s => filled (supplier_name s) = true) (supplier_rows sample_db) ->
   Forall (fun l => supplier_column (snd l)
                    = option_map (fun r => (supplier_name r, supplier_id r))
                        (supplier_of sample_db (fst l)))
     (product_lines (console_after view_products (boot sample_db)))) /\
  (forall w, txn w = None -> file_after view_products w = file w).
Proof.
  apply (@view_products_correct sample_db). discriminate.
Defined.

(** ** A receipt followed by an issue of the same quantity *)





Lemma set_quantity_same (r : product_row) : set_quantity (quantity r) r = r.
Proof. destruct r. reflexivity. Qed.




(** ** Keys and tables *)

Lemma exec_ids_unique (s : stmt) (d d' : db) :
  ids_unique d -> exec s d = inr d' -> ids_unique d'.
Proof.
  unfold ids_unique, supplier_rows, product_rows, trans_rows.
  intros [Hs [Hp Ht]] H.
  destruct s; exec_cases H; try (repeat split; assumption).
  - (* CREATE TABLE Suppliers *)
    repeat split; try assumption. destruct (Suppliers d); simpl; auto.
  - (* CREATE TABLE Products *)
    repeat split; try assumption. destruct (Products d); simpl; auto.
  - (* CREATE TABLE Transactions *)
    repeat split; try assumption. destruct (Transactions d); simpl; auto.
  - (* INSERT INTO Suppliers *)
    repeat split; try assumption.
    apply (insert_row_unique supplier_id (fun i => mkSupplier i n c)); auto.
  - (* INSERT INTO Products *)
    repeat split; try assumption.
    apply (insert_row_unique product_id (fun i => mkProduct i n c (Int q) p sid)); auto.
  - (* UPDATE ... quantity + ? *)
    repeat split; try assumption.
    apply (eq_ind_r (fun l => NoDup l) Hp (update_quantity_ids qty pid t)).
  - (* UPDATE ... quantity - ? *)
    repeat split; try assumption.
    apply (eq_ind_r (fun l => NoDup l) Hp (update_quantity_ids (- qty) pid t)).
  - (* INSERT INTO Transactions *)
    repeat split; try assumption.
    apply (insert_row_unique trans_id (fun i => mkTrans i pid k qty d0)); auto.
Qed.

(** X19. Ids are never given twice: under every behaviour of the
    storage, when no two rows of a table share an id, the same holds
    after table creation, after every operation and after every run of
    the menu. *)
Theorem ids_stay_unique (w : world) :
  txn w = None ->
  ids_unique (file w) ->
  ids_unique (file_after create_tables w) /\
  (forall a, ids_unique (file_after (run_action a) w)) /\
  (forall acts, ids_unique (file_after (main_menu acts) w)).
Proof.
  intros Ht Hr. apply (@exec_closed_runs ids_unique w); auto.
  intros s d d'. apply exec_ids_unique.
Qed.

Lemma ids_stay_unique_witness :
  ids_unique (file_after create_tables (boot sample_db)) /\
  (forall a, ids_unique (file_after (run_action a) (boot sample_db))) /\
  (forall acts, ids_unique (file_after (main_menu acts) (boot sample_db))).
Proof.
  apply (@ids_stay_unique (boot sample_db)).
  - reflexivity.
  - repeat split; simpl; (constructor; [simpl; tauto | constructor]).
Defined.

Lemma exec_schema_ready (s : stmt) (d d' : db) :
  schema_ready d -> exec s d = inr d' -> schema_ready d'.
Proof.
  unfold schema_ready. intros [Hs [Hp Ht]] H.
  destruct s; exec_cases H; repeat split; try assumption; try discriminate;
    match goal with
    | |- create_if_not_exists ?x <> None => destruct x; simpl; congruence
    end.
Qed.

Lemma create_tables_ready (w : world) :
  txn w = None -> creation_unharmed (faults w) ->
  post create_tables w
       (fun r w' => schema_ready (file w') /\
                    match r with Ret _ => txn w' = None | _ => True end).
Proof.
  intros Ht Hfl.
  pose proof (Hfl 0%nat ltac:(lia)) as H0. pose proof (Hfl 1%nat ltac:(lia)) as H1.
  pose proof (Hfl 2%nat ltac:(lia)) as H2. pose proof (Hfl 3%nat ltac:(lia)) as H3.
  clear Hfl.
  destruct w as [[s p t] tx fl lg c]; simpl in *; subst tx.
  assert (Hready : forall s' p' t',
            schema_ready {| Suppliers := create_if_not_exists s';
                            Products := create_if_not_exists p';
                            Transactions := create_if_not_exists t' |}).
  { intros [?|] [?|] [?|]; repeat split; simpl; discriminate. }
  destruct fl as [| f0 [| f1 [| f2 [| f3 fl]]]]; simpl in *; subst;
    unfold create_tables;
    repeat (first [ fstep
                  | progress cbn [exec Suppliers Products Transactions] ];
            try congruence);
    try solve [ split; [| exact I || reflexivity];
                first [ apply Hready
                      | apply (Hready (create_if_not_exists s))
                      | destruct s, p, t; repeat split; simpl; discriminate ] ].
Qed.

(** X20. The tables are there once the program has started: when the
    storage works at the connection and the three [CREATE TABLE]
    statements of [create_tables], the file has the three tables after
    it, whatever it had before and whatever the storage does afterwards,
    and it still has them after every run of the menu. *)
Theorem tables_ready_after_start (w : world) (acts : list action) :
  txn w = None ->
  creation_unharmed (faults w) ->
  schema_ready (file_after create_tables w) /\
  schema_ready (file_after (main_menu acts) w).
Proof.
  intros Ht Hfl.
  pose proof (create_tables_ready w Ht Hfl) as Hc.
  split; [exact (proj1 Hc) |].
  change (post (main_menu acts) w (fun _ w' => schema_ready (file w'))).
  unfold main_menu. step.
  eapply post_mono; [exact Hc |].
  cbv beta. intros r w1 [Hr Ht1]. destruct r as [[] | e |]; try exact Hr.
  assert (Hw : holds (both schema_ready) w1).
  { split; [exact Hr |]. rewrite Ht1. discriminate. }
  assert (Hs : forall s, stmt_ok (both schema_ready) s).
  { intros s. apply both_stmt_ok. intros d d'. apply exec_schema_ready. }
  assert (Hm : preserves (both schema_ready)
                 (print (Text "===== Inventory Management System =====") ;;
                  menu_loop acts)).
  { apply preserves_bind; [apply preserves_print | intros _].
    apply menu_loop_preserves; auto using both_rollback_closed, both_commit_closed. }
  exact (proj1 (Hm w1 Hw)).
Qed.

Lemma tables_ready_after_start_witness :
  schema_ready (file_after create_tables (boot empty_db)) /\
  schema_ready (file_after (main_menu [ViewProducts; AddSupplier "Acme" ""])
                  (boot empty_db)).
Proof.
  apply (@tables_ready_after_start (boot empty_db)).
  - reflexivity.
  - intros [| [| [| [| i]]]] Hi; simpl; try reflexivity; destruct i; reflexivity.
Defined.

(** ** What [add_product] can leave behind *)





(** ** Runs on a storage that works *)

Lemma steady_ret (A : Type) (a : A) : steady (ret a).
Proof. intros w H. split; [discriminate | exact H]. Qed.

Lemma steady_print (l : line) : steady (print l).
Proof. intros w H. split; [discriminate | exact H]. Qed.

Lemma steady_bind (A B : Type) (m : M A) (k : A -> M B) :
  steady m -> (forall a, steady (k a)) -> steady (bind m k).
Proof.
  intros Hm Hk w H. unfold bind. specialize (Hm w H).
  destruct (m w) as [[a | e |] w1]; simpl in *.
  - apply Hk, Hm.
  - split; [discriminate | apply Hm].
  - destruct Hm as [Hm _]. congruence.
Qed.

Lemma steady_try_except (A : Type) (body : M A) (handler : exn -> M A) :
  steady body -> (forall e, steady (handler e)) -> steady (try_except body handler).
Proof.
  intros Hb Hh w H. unfold try_except. specialize (Hb w H).
  destruct (body w) as [[a | e |] w1]; simpl in *; auto.
  destruct (sqlite_error e); [apply Hh, Hb | exact Hb].
Qed.

Lemma steady_try_finally (A : Type) (body : M A) (fin : M unit) :
  steady body -> steady fin -> steady (try_finally body fin).
Proof.
  intros Hb Hf w H. unfold try_finally. specialize (Hb w H).
  destruct (body w) as [[a | e |] w1]; simpl in *;
    try (destruct Hb as [Hb _]; congruence);
    destruct Hb as [_ Hb]; specialize (Hf w1 Hb);
    destruct (fin w1) as [[[] | e' |] w2]; simpl in *;
    destruct Hf as [Hf1 Hf2];
    solve [split; [discriminate | exact Hf2] | exfalso; apply Hf1; reflexivity].
Qed.

Lemma steady_print_all (A : Type) (f : A -> line) (l : list A) :
  steady (print_all f l).
Proof.
  induction l as [| x l IH]; simpl.
  - apply steady_ret.
  - apply steady_bind; [apply steady_print | intros _; exact IH].
Qed.

Lemma steady_db_call (A : Type) (act : M A) : steady act -> steady (db_call act).
Proof.
  intros Ha w H. unfold db_call. rewrite H. apply Ha. simpl. rewrite H. reflexivity.
Qed.

Lemma steady_get_connection : steady get_connection.
Proof. apply steady_db_call, steady_ret. Qed.

Lemma steady_close : steady close.
Proof. intros w H. split; [discriminate | exact H]. Qed.

Lemma steady_commit : steady commit.
Proof.
  apply steady_db_call. intros w H. split; [discriminate | exact H].
Qed.

Lemma steady_query (A : Type) (s : stmt) (q : db -> exn + A) : steady (query s q).
Proof.
  intros w0 H0. unfold query.
  apply (@steady_db_call A); [| exact H0].
  intros w H. destruct (q (current w)); split; solve [discriminate | exact H].
Qed.

Lemma steady_execute (s : stmt) : steady (execute s).
Proof.
  intros w0 H0. unfold execute.
  apply (@steady_db_call unit); [| exact H0].
  intros w H. destruct (exec s (current w)); [split; [discriminate | exact H] |].
  destruct (is_ddl s && match txn w with None => true | Some _ => false end);
    split; solve [discriminate | exact H].
Qed.

Ltac steadying :=
  repeat first
    [ apply steady_ret
    | apply steady_print
    | apply steady_print_all
    | apply steady_get_connection
    | apply steady_close
    | apply steady_query
    | apply steady_commit
    | apply steady_execute
    | apply steady_try_finally
    | apply steady_try_except; [| intros ?]
    | apply steady_bind; [| intros ?]
    | match goal with
      | |- steady (match ?x with _ => _ end) => destruct x
      end ].

Lemma run_action_steady (a : action) : steady (run_action a).
Proof.
  destruct a; simpl;
    unfold add_supplier, add_product, stock_in, stock_out, low_stock_report,
      transaction_report, view_suppliers, view_products, get_product, supplier_exists;
    steadying.
Qed.



(** *** No [OverflowError] when the integers bound are within 64 bits *)

Lemma exec_in_range (s : stmt) (d : db) (e : exn) :
  in_range s = true -> exec s d = inl e -> sqlite_error e = true.
Proof.
  intros Hr H. destruct s; simpl in Hr, H; try discriminate;
    try rewrite Hr in H; simpl in H;
    repeat match type of H with
           | context [match ?x with _ => _ end] => destruct x
           end;
    try discriminate; injection H as <-; reflexivity.
Qed.

Lemma select_supplier_exists_in_range (s : Z) (d : db) (e : exn) :
  fits s = true -> select_supplier_exists s d = inl e -> sqlite_error e = true.
Proof.
  unfold select_supplier_exists. intros ->. simpl.
  destruct (Suppliers d); [discriminate |]. intros H. injection H as <-. reflexivity.
Qed.

Lemma select_product_in_range (pid : option Z) (d : db) (e : exn) :
  fits_opt pid = true -> select_product pid d = inl e -> sqlite_error e = true.
Proof.
  unfold select_product. intros ->. simpl.
  destruct (Products d); [discriminate |]. intros H. injection H as <-. reflexivity.
Qed.

Lemma select_low_stock_in_range (t : Z) (d : db) (e : exn) :
  fits t = true -> select_low_stock t d = inl e -> sqlite_error e = true.
Proof.
  unfold select_low_stock. intros ->. simpl.
  destruct (Products d); [discriminate |]. intros H. injection H as <-. reflexivity.
Qed.

Lemma tame_ret (A : Type) (a : A) : tame (ret a).
Proof. intros w e H. discriminate. Qed.

Lemma tame_print (l : line) : tame (print l).
Proof. intros w e H. discriminate. Qed.

Lemma tame_close : tame close.
Proof. intros w e H. discriminate. Qed.

Lemma tame_bind (A B : Type) (m : M A) (k : A -> M B) :
  tame m -> (forall a, tame (k a)) -> tame (bind m k).
Proof.
  intros Hm Hk w e. unfold bind. specialize (Hm w).
  destruct (m w) as [[a | e' |] w1]; simpl in *.
  - apply Hk.
  - intros H. injection H as <-. apply Hm. reflexivity.
  - discriminate.
Qed.

Lemma tame_print_all (A : Type) (f : A -> line) (l : list A) : tame (print_all f l).
Proof.
  induction l as [| x l IH]; simpl.
  - apply tame_ret.
  - apply tame_bind; [apply tame_print | intros _; exact IH].
Qed.

Lemma tame_try_except (A : Type) (body : M A) (handler : exn -> M A) :
  tame body -> (forall e, tame (handler e)) -> tame (try_except body handler).
Proof.
  intros Hb Hh w e. unfold try_except. specialize (Hb w).
  destruct (body w) as [[a | e' |] w1]; simpl in *; try discriminate.
  rewrite (Hb e' eq_refl). apply Hh.
Qed.

Lemma tame_try_finally (A : Type) (body : M A) (fin : M unit) :
  tame body -> tame fin -> tame (try_finally body fin).
Proof.
  intros Hb Hf w e. unfold try_finally. specialize (Hb w).
  destruct (body w) as [[a | e' |] w1]; simpl in *; try discriminate;
    specialize (Hf w1); destruct (fin w1) as [[[] | e2 |] w2]; simpl in *;
    try discriminate; intros H; injection H as <-; auto.
Qed.

Lemma tame_db_call (A : Type) (act : M A) : tame act -> tame (db_call act).
Proof.
  intros Ha w e. unfold db_call.
  destruct (faults w) as [| [] fl]; try apply Ha.
  - intros H. injection H as <-. reflexivity.
  - discriminate.
Qed.

Lemma tame_get_connection : tame get_connection.
Proof. apply tame_db_call, tame_ret. Qed.

Lemma tame_commit : tame commit.
Proof. apply tame_db_call. intros w e H. discriminate. Qed.

Lemma tame_query (A : Type) (s : stmt) (q : db -> exn + A) :
  (forall d e, q d = inl e -> sqlite_error e = true) -> tame (query s q).
Proof.
  intros Hq w0 e. unfold query.
  apply (@tame_db_call A). intros w e0.
  destruct (q (current w)) as [e1 | a] eqn:E; [| discriminate].
  intros H. injection H as <-. exact (Hq _ _ E).
Qed.

Lemma tame_execute (s : stmt) : in_range s = true -> tame (execute s).
Proof.
  intros Hr w0 e. unfold execute.
  apply (@tame_db_call unit). intros w e0.
  destruct (exec s (current w)) as [e1 | d] eqn:E.
  - intros H. injection H as <-. exact (exec_in_range s _ Hr E).
  - destruct (is_ddl s && match txn w with None => true | Some _ => false end);
      discriminate.
Qed.

(** Finds the range of a bound integer among what is known of what was
    typed. *)
Ltac ranged :=
  simpl in *;
  repeat match goal with
         | H : _ && _ = true |- _ =>
             apply andb_true_iff in H; let H' := fresh in destruct H as [H H']
         end;
  repeat match goal with
         | |- _ && _ = true => apply andb_true_iff; split
         end;
  solve [assumption | reflexivity].

Ltac taming :=
  repeat first
    [ apply tame_ret
    | apply tame_print
    | apply tame_print_all
    | apply tame_get_connection
    | apply tame_close
    | apply tame_commit
    | apply tame_query;
      let d := fresh "d" in
      let e := fresh "e" in
      let E := fresh "E" in
      intros d e E;
      first [ apply select_suppliers_error in E; subst e; reflexivity
            | apply select_products_join_error in E; subst e; reflexivity
            | apply select_transactions_join_error in E; subst e; reflexivity
            | eapply select_supplier_exists_in_range; [| exact E]; ranged
            | eapply select_product_in_range; [| exact E]; ranged
            | eapply select_low_stock_in_range; [| exact E]; ranged ]
    | apply tame_execute; ranged
    | apply tame_try_finally
    | apply tame_try_except; [| intros ?]
    | apply tame_bind; [| intros ?]
    | match goal with
      | |- tame (match ?x with _ => _ end) => destruct x
      end ].


Lemma run_action_tame (a : action) : typed_in_range a = true -> tame (run_action a).
Proof.
  intros Hr. destruct a; simpl in *;
    unfold add_supplier, add_product, stock_in, stock_out, low_stock_report,
      transaction_report, view_suppliers, view_products, get_product, supplier_exists;
    taming.
Qed.












